(** * The caching and refresh core of the NEPSE market-data backend

    A shallow embedding of [backend/app.py] (the in-memory cache, the
    scheduled [update_cache] pass and the cached read handlers) and of the
    part of [backend/services/nepse_service.py] the handlers depend on
    ([get_top_gainers] / [get_top_losers]).

    Python values are JSON-like trees, the module-level [cache] dictionary is
    a finite map from category keys to entries, and the effects of the code
    (mutation of [cache], readings of [datetime.now()], calls of the service
    methods, logging, exceptions) are threaded through a state-and-exception
    monad.  The wall clock and the upstream services are an oracle [env]:
    the [n]-th reading of the clock and the outcome of the [n]-th service
    call are given from outside.  A process is a sequence of scheduled
    passes and requests, each run to its end before the next starts. *)

From Stdlib Require Import ZArith String.
From stdpp Require Import base option list strings gmap fin_maps.

Local Open Scope string_scope.
Local Open Scope Z_scope.

(** ** Python values *)

(** What the fetch functions return and what [jsonify] can serialise.
    A float is kept as mantissa and exponent (only its truth value matters
    to the cache), a dictionary as the list of its items, one per key. *)
#[warnings="-register-all"] Inductive pyval : Type :=
| VNone
| VBool (b : bool)
| VInt (n : Z)
| VFloat (m e : Z)
| VStr (s : string)
| VList (items : list pyval)
| VDict (fields : list (string * pyval)).

Inductive exn : Type :=
| KeyError (key : string)
| TypeError
| AttributeError
| UpstreamError (msg : string).

Inductive result (A : Type) : Type :=
| Ok (a : A)
| Raise (e : exn).
Arguments Ok {A} a.
Arguments Raise {A} e.

(** [if data:] and [if not stocks:] *)
Definition truthy (v : pyval) : bool :=
  match v with
  | VNone => false
  | VBool b => b
  | VInt n => negb (n =? 0)
  | VFloat m _ => negb (m =? 0)
  | VStr s => negb (String.eqb s "")
  | VList items => match items with [] => false | _ => true end
  | VDict fields => match fields with [] => false | _ => true end
  end.

(** [x is None] *)
Definition is_none (v : pyval) : bool :=
  match v with VNone => true | _ => false end.

(** [isinstance(x, list)] *)
Definition is_list (v : pyval) : bool :=
  match v with VList _ => true | _ => false end.

(** [len(x)]: a [TypeError] on values without a length. *)
Definition py_len (v : pyval) : result nat :=
  match v with
  | VStr s => Ok (String.length s)
  | VList items => Ok (length items)
  | VDict fields => Ok (length fields)
  | _ => Raise TypeError
  end.

(** The stop index of the slice [x[:limit]] on a sequence of length [len]:
    a negative [limit] counts from the end, and the index is clamped to
    [0 .. len]. *)
Definition slice_stop (len : nat) (limit : Z) : nat :=
  Z.to_nat (if limit <? 0 then Z.max 0 (Z.of_nat len + limit)
            else Z.min limit (Z.of_nat len)).

Definition slice_to {A} (l : list A) (limit : Z) : list A :=
  take (slice_stop (length l) limit) l.

(** [x[:limit]]: a new list (or string); the operand is not modified.
    Values that are not sequences raise. *)
Definition py_slice_to (v : pyval) (limit : Z) : result pyval :=
  match v with
  | VList items => Ok (VList (slice_to items limit))
  | VStr s => Ok (VStr (String.substring 0 (slice_stop (String.length s) limit) s))
  | _ => Raise TypeError
  end.

(** ** The cache *)

(** One [{'data': ..., 'last_updated': ...}] dictionary.  A [datetime] is
    a number of microseconds; [None] in [last_updated] is [None]. *)
Record entry : Type := Entry {
  data : pyval;
  last_updated : option Z
}.

Definition empty_entry : entry := Entry VNone None.

(** The keys of the module-level [cache] dictionary, in the order of the
    literal. *)
Definition cache_keys : list string :=
  ["stocks"; "indices"; "top_gainers"; "top_losers"; "sectors";
   "merolagani_latest"].

(** [cache = {'stocks': {'data': None, 'last_updated': None}, ...}] *)
Definition initial_cache : gmap string entry :=
  list_to_map ((λ k, (k, empty_entry)) <$> cache_keys).

(** ** The services, the clock and the world *)

(** The service methods the cache core calls, with their arguments. *)
Inductive fetch_call : Type :=
| GetAllStocks
| GetIndices
| GetTopGainers (limit : Z)
| GetTopLosers (limit : Z)
| GetSectorData
| GetLatestMarketData.

Inductive log_event : Type :=
| LogUpdateStart
| LogUpdated (cache_key : string) (data_count : nat)
| LogNoData (cache_key : string)
| LogUpdateFailed (cache_key : string) (e : exn)
| LogUpdateCompleted
| LogApiError (e : exn)
| LogFetchError (what : string) (e : exn).

(** What the program cannot decide: the configured [CACHE_TIMEOUT]
    (seconds), the successive readings of [datetime.now()] and the outcome of
    each service call (the [n]-th call of the process, made with the given
    method and arguments). *)
Record env : Type := Env {
  CACHE_TIMEOUT : Z;
  clock : nat → Z;
  service : nat → fetch_call → result pyval
}.

(** The mutable state: the [cache] dictionary, how many times the clock was
    read, the service calls made so far (oldest first) and the log. *)
Record world : Type := World {
  cache : gmap string entry;
  ticks : nat;
  calls : list fetch_call;
  log : list log_event
}.

Definition initial_world : world := World initial_cache 0 [] [].

(** ** The monad *)

Definition M (A : Type) : Type := env → world → result A * world.

Definition ret {A} (a : A) : M A := λ _ w, (Ok a, w).

Definition bind {A B} (c : M A) (k : A → M B) : M B :=
  λ ev w, match c ev w with
          | (Ok a, w') => k a ev w'
          | (Raise e, w') => (Raise e, w')
          end.

Definition raise {A} (e : exn) : M A := λ _ w, (Raise e, w).

(** [try: c  except Exception as e: h e] *)
Definition try_except {A} (c : M A) (h : exn → M A) : M A :=
  λ ev w, match c ev w with
          | (Ok a, w') => (Ok a, w')
          | (Raise e, w') => h e ev w'
          end.

Definition lift {A} (r : result A) : M A := λ _ w, (r, w).

Declare Scope py_scope.
Delimit Scope py_scope with py.
Notation "x <- c ;; k" := (bind c (λ x, k))
  (at level 100, c at next level, right associativity) : py_scope.
Notation "c ;; k" := (bind c (λ _, k))
  (at level 100, right associativity) : py_scope.
Local Open Scope py_scope.

(** [key in cache] *)
Definition cache_has (key : string) : M bool :=
  λ _ w, (Ok (bool_decide (is_Some (cache w !! key))), w).

(** [cache[key]]: a [KeyError] when the key is absent. *)
Definition cache_get (key : string) : M entry :=
  λ _ w, match cache w !! key with
         | Some e => (Ok e, w)
         | None => (Raise (KeyError key), w)
         end.

Definition with_cache (c : gmap string entry) (w : world) : world :=
  World c (ticks w) (calls w) (log w).

(** [cache[key]['data'] = v] *)
Definition set_data (key : string) (v : pyval) : M unit :=
  λ _ w, match cache w !! key with
         | Some e => (Ok tt, with_cache (<[key := Entry v (last_updated e)]> (cache w)) w)
         | None => (Raise (KeyError key), w)
         end.

(** [cache[key]['last_updated'] = t] *)
Definition set_last_updated (key : string) (t : Z) : M unit :=
  λ _ w, match cache w !! key with
         | Some e => (Ok tt, with_cache (<[key := Entry (data e) (Some t)]> (cache w)) w)
         | None => (Raise (KeyError key), w)
         end.

(** [datetime.now()] *)
Definition datetime_now : M Z :=
  λ ev w, (Ok (clock ev (ticks w)),
           World (cache w) (S (ticks w)) (calls w) (log w)).

(** A read of the global [CACHE_TIMEOUT]. *)
Definition cache_timeout : M Z :=
  λ ev w, (Ok (CACHE_TIMEOUT ev), w).

(** A call of a service method: recorded, then answered by the oracle. *)
Definition call (f : fetch_call) : M pyval :=
  λ ev w, (service ev (length (calls w)) f,
           World (cache w) (ticks w) (calls w ++ [f]) (log w)).

Definition logger (ev : log_event) : M unit :=
  λ _ w, (Ok tt, World (cache w) (ticks w) (calls w) (log w ++ [ev])).

(** [for x in xs: body x] *)
Fixpoint for_each {A} (xs : list A) (body : A → M unit) : M unit :=
  match xs with
  | [] => ret tt
  | x :: xs' => body x ;; for_each xs' body
  end.

(** The two assignments every writer of the cache makes, one after the
    other:
    [cache[key]['data'] = v; cache[key]['last_updated'] = datetime.now()]. *)
Definition cache_put (key : string) (v : pyval) : M unit :=
  set_data key v ;;
  now <- datetime_now ;;
  set_last_updated key now.

(** ** [is_cache_valid] *)

Definition MICROSECONDS : Z := 1000000.

(** [elapsed.total_seconds() < CACHE_TIMEOUT], with [elapsed] the
    difference of two datetimes in microseconds: the quotient by [10**6] is
    below the timeout iff the difference is below [10**6] times the timeout
    (the rounding of the quotient to a float does not change the comparison
    for timeouts below [2**33] seconds). *)
Definition elapsed_lt_timeout (now t timeout : Z) : bool :=
  now - t <? timeout * MICROSECONDS.

(** The timeouts for which the comparison of [elapsed_lt_timeout] is the
    one the code makes.  [total_seconds()] is the quotient rounded to a
    double, and Python compares that double with the integer
    [CACHE_TIMEOUT] exactly.  Next to an integer below [2**33] in absolute
    value the doubles are less than a microsecond apart, so a quotient at
    least a microsecond below the timeout stays below it after rounding; a
    larger timeout can be reached by rounding up (at [2**34 + 1] seconds an
    age one microsecond short of the timeout rounds to the timeout).  The
    properties that conclude that an entry is valid carry this bound. *)
Definition exact_timeout (timeout : Z) : Prop := - 2 ^ 33 < timeout < 2 ^ 33.

Definition is_cache_valid (cache_key : string) : M bool :=
  present <- cache_has cache_key ;;
  if negb present then ret false else
  e <- cache_get cache_key ;;
  if is_none (data e) then ret false else
  match last_updated e with
  | None => ret false
  | Some t =>
      now <- datetime_now ;;
      timeout <- cache_timeout ;;
      ret (elapsed_lt_timeout now t timeout)
  end.

(** ** [update_cache] *)

(** The [cache_operations] list.  The two [lambda]s for the top lists call
    the service with its default [limit=10]. *)
Definition cache_operations : list (string * fetch_call) :=
  [("stocks", GetAllStocks);
   ("indices", GetIndices);
   ("top_gainers", GetTopGainers 10);
   ("top_losers", GetTopLosers 10);
   ("sectors", GetSectorData);
   ("merolagani_latest", GetLatestMarketData)].

(** [len(data) if isinstance(data, list) else 1] *)
Definition data_count (v : pyval) : nat :=
  match v with VList items => length items | _ => 1%nat end.

(** The body of the [for] loop of [update_cache], with its [try] /
    [except Exception]. *)
Definition update_one (op : string * fetch_call) : M unit :=
  let '(cache_key, fetch_function) := op in
  try_except
    (v <- call fetch_function ;;
     if truthy v then
       cache_put cache_key v ;;
       logger (LogUpdated cache_key (data_count v))
     else
       logger (LogNoData cache_key))
    (λ e, logger (LogUpdateFailed cache_key e)).

Definition update_cache : M unit :=
  logger LogUpdateStart ;;
  for_each cache_operations update_one ;;
  logger LogUpdateCompleted.

(** ** The cached read handlers *)

(** A rendered datetime: [.isoformat()] or
    [.strftime('%Y-%m-%d %H:%M:%S')] of the given instant. *)
Inductive timestr : Type :=
| IsoFormat (t : Z)
| StrfTime (t : Z).

(** A message: a literal, or [str(e)]. *)
Inductive text : Type :=
| Literal (s : string)
| StrOf (e : exn).

(** The JSON bodies of the cached endpoints. *)
Inductive body : Type :=
| StatusSuccess (data : pyval) (cached : bool) (last_updated : timestr) (count : nat)
| StatusError (message : text) (timestamp : timestr)
| SuccessTrue (data : pyval) (cached : bool) (last_updated : timestr)
| SuccessFalse (error : text).

Record response : Type := Response {
  json : body;
  status_code : nat
}.

(** [jsonify(b)] alone is a 200 response. *)
Definition jsonify (b : body) : response := Response b 200.

(** [cache[key]['last_updated'].isoformat()] and [.strftime(...)]: an
    [AttributeError] on [None]. *)
Definition isoformat (t : option Z) : M timestr :=
  match t with Some t => ret (IsoFormat t) | None => raise AttributeError end.

Definition strftime (t : option Z) : M timestr :=
  match t with Some t => ret (StrfTime t) | None => raise AttributeError end.

(** The [api_error_handler] decorator. *)
Definition api_error_handler (f : M response) : M response :=
  try_except f
    (λ e, logger (LogApiError e) ;;
          now <- datetime_now ;;
          ret (Response (StatusError (StrOf e) (IsoFormat now)) 500)).

(** [get_stocks], before decoration. *)
Definition get_stocks_undecorated : M response :=
  valid <- is_cache_valid "stocks" ;;
  if valid then
    e <- cache_get "stocks" ;;
    e' <- cache_get "stocks" ;;
    iso <- isoformat (last_updated e') ;;
    e'' <- cache_get "stocks" ;;
    n <- lift (py_len (data e'')) ;;
    ret (jsonify (StatusSuccess (data e) true iso n))
  else
    stocks <- call GetAllStocks ;;
    if negb (truthy stocks) then
      now <- datetime_now ;;
      ret (Response (StatusError (Literal "No stocks data available") (IsoFormat now)) 404)
    else
      cache_put "stocks" stocks ;;
      e <- cache_get "stocks" ;;
      iso <- isoformat (last_updated e) ;;
      n <- lift (py_len stocks) ;;
      ret (jsonify (StatusSuccess stocks false iso n)).

Definition get_stocks : M response := api_error_handler get_stocks_undecorated.

(** The common text of [get_indices], [get_sectors] and
    [get_merolagani_latest], which differ in the cache key, the service
    method and the wording of the log line only. *)
Definition cached_endpoint (cache_key : string) (fetch : fetch_call) (what : string)
  : M response :=
  valid <- is_cache_valid cache_key ;;
  if valid then
    e <- cache_get cache_key ;;
    e' <- cache_get cache_key ;;
    ts <- strftime (last_updated e') ;;
    ret (jsonify (SuccessTrue (data e) true ts))
  else
    try_except
      (v <- call fetch ;;
       (if truthy v then cache_put cache_key v else ret tt) ;;
       now <- datetime_now ;;
       ret (jsonify (SuccessTrue v false (StrfTime now))))
      (λ e, logger (LogFetchError what e) ;;
            ret (Response (SuccessFalse (StrOf e)) 500)).

Definition get_indices : M response :=
  cached_endpoint "indices" GetIndices "indices".

Definition get_sectors : M response :=
  cached_endpoint "sectors" GetSectorData "sectors".

Definition get_merolagani_latest : M response :=
  cached_endpoint "merolagani_latest" GetLatestMarketData "MeroLagani data".

(** [request.args.get('limit', default=10, type=int)]: the argument is
    [None] when the query has no [limit] or one that is not an integer. *)
Definition args_get_limit (arg : option Z) : Z := default 10 arg.

(** The common text of [get_top_gainers] and [get_top_losers]. *)
Definition top_endpoint (cache_key : string) (fetch : Z → fetch_call) (what : string)
    (limit_arg : option Z) : M response :=
  let limit := args_get_limit limit_arg in
  valid <- is_cache_valid cache_key ;;
  if valid then
    e <- cache_get cache_key ;;
    d <- lift (py_slice_to (data e) limit) ;;
    e' <- cache_get cache_key ;;
    ts <- strftime (last_updated e') ;;
    ret (jsonify (SuccessTrue d true ts))
  else
    try_except
      (v <- call (fetch limit) ;;
       (if truthy v then cache_put cache_key v else ret tt) ;;
       d <- lift (py_slice_to v limit) ;;
       now <- datetime_now ;;
       ret (jsonify (SuccessTrue d false (StrfTime now))))
      (λ e, logger (LogFetchError what e) ;;
            ret (Response (SuccessFalse (StrOf e)) 500)).

Definition get_top_gainers (limit_arg : option Z) : M response :=
  top_endpoint "top_gainers" GetTopGainers "top gainers" limit_arg.

Definition get_top_losers (limit_arg : option Z) : M response :=
  top_endpoint "top_losers" GetTopLosers "top losers" limit_arg.

(** ** The process *)

(** A request to one of the cached routes. *)
Inductive request : Type :=
| ReqStocks
| ReqIndices
| ReqTopGainers (limit_arg : option Z)
| ReqTopLosers (limit_arg : option Z)
| ReqSectors
| ReqMerolaganiLatest.

Definition handle (r : request) : M response :=
  match r with
  | ReqStocks => get_stocks
  | ReqIndices => get_indices
  | ReqTopGainers a => get_top_gainers a
  | ReqTopLosers a => get_top_losers a
  | ReqSectors => get_sectors
  | ReqMerolaganiLatest => get_merolagani_latest
  end.

(** The category a request reads. *)
Definition request_key (r : request) : string :=
  match r with
  | ReqStocks => "stocks"
  | ReqIndices => "indices"
  | ReqTopGainers _ => "top_gainers"
  | ReqTopLosers _ => "top_losers"
  | ReqSectors => "sectors"
  | ReqMerolaganiLatest => "merolagani_latest"
  end.

(** What happens to the cache over the life of the process: passes of
    [update_cache] (the one at startup and the scheduled ones) and requests,
    one after the other.  An exception that leaves a handler is answered by
    the framework; the world is the one the handler left. *)
Inductive event : Type :=
| Refresh
| Serve (r : request).

Definition exec (ev : env) (w : world) (e : event) : world :=
  match e with
  | Refresh => (update_cache ev w).2
  | Serve r => (handle r ev w).2
  end.

Definition run (ev : env) (es : list event) : world :=
  foldl (exec ev) initial_world es.

(** ** [NepseService.get_top_gainers] and [get_top_losers] *)

Module NepseService.

(** [requests.get(url)]: an exception, or a response with its
    [status_code] and what [response.json()] gives. *)
Inductive http : Type :=
| HttpRaises (e : exn)
| HttpResponse (status_code : Z) (json : result pyval).

(** What one call of a top-list method meets upstream: the reply of the
    unofficial API to [/top-ten/...?all=true], and the outcome of the
    fallback computation [sorted(self.get_all_stocks(), key=...)], a list
    or an exception. *)
Record upstream : Type := Upstream {
  top_ten : http;
  sorted_stocks : result (list pyval)
}.

(** The first [try] block: [Some] is a [return], [None] falls through to
    the fallback (a status other than 200, or an exception, which is
    printed). *)
Definition from_unofficial_api (u : upstream) (limit : Z) : option pyval :=
  match top_ten u with
  | HttpResponse 200 (Ok (VList items)) => Some (VList (slice_to items limit))
  | HttpResponse 200 (Ok _) => Some (VList [])
  | HttpResponse 200 (Raise _) => None
  | HttpResponse _ _ => None
  | HttpRaises _ => None
  end.

(** The second [try] block. *)
Definition from_all_stocks (u : upstream) (limit : Z) : pyval :=
  match sorted_stocks u with
  | Ok stocks => VList (slice_to stocks limit)
  | Raise _ => VList []
  end.

Definition get_top_gainers (u : upstream) (limit : Z) : pyval :=
  match from_unofficial_api u limit with
  | Some v => v
  | None => from_all_stocks u limit
  end.

Definition get_top_losers (u : upstream) (limit : Z) : pyval :=
  match from_unofficial_api u limit with
  | Some v => v
  | None => from_all_stocks u limit
  end.

End NepseService.

(** The service oracle of a process whose top-list methods are the ones
    above, run on the upstream replies [tops], and whose other methods
    answer as [others] says. *)
Definition nepse_service (tops : nat → NepseService.upstream)
    (others : nat → fetch_call → result pyval) : nat → fetch_call → result pyval :=
  λ n f, match f with
         | GetTopGainers limit => Ok (NepseService.get_top_gainers (tops n) limit)
         | GetTopLosers limit => Ok (NepseService.get_top_losers (tops n) limit)
         | _ => others n f
         end.

(** ** The two branches of a handler, in closed form *)

Definition tick (w : world) : world :=
  World (cache w) (S (ticks w)) (calls w) (log w).

(** The world after a call of the service method [f]. *)
Definition called (f : fetch_call) (w : world) : world :=
  World (cache w) (ticks w) (calls w ++ [f]) (log w).

(** The world after [cache_put key v] on a key that is present. *)
Definition stored (ev : env) (key : string) (v : pyval) (w : world) : world :=
  World (<[key := Entry v (Some (clock ev (ticks w)))]> (cache w))
        (S (ticks w)) (calls w) (log w).

(** What [api_error_handler] answers after catching [x]. *)
Definition api_failed (ev : env) (x : exn) (w : world) : result response * world :=
  (Ok (Response (StatusError (StrOf x) (IsoFormat (clock ev (ticks w)))) 500),
   World (cache w) (S (ticks w)) (calls w) (log w ++ [LogApiError x])).

(** What the [except] clause of an endpoint answers after catching [x]. *)
Definition fetch_failed_with (what : string) (x : exn) (w : world)
  : result response * world :=
  (Ok (Response (SuccessFalse (StrOf x)) 500),
   World (cache w) (ticks w) (calls w) (log w ++ [LogFetchError what x])).

Definition stocks_cached (ev : env) (w0 : world) : result response * world :=
  match cache w0 !! "stocks" with
  | Some (Entry d (Some t)) =>
      match py_len d with
      | Ok n => (Ok (jsonify (StatusSuccess d true (IsoFormat t) n)), w0)
      | Raise x => api_failed ev x w0
      end
  | Some (Entry d None) => api_failed ev AttributeError w0
  | None => api_failed ev (KeyError "stocks") w0
  end.

Definition stocks_fetched (ev : env) (w0 : world) : result response * world :=
  let w1 := called GetAllStocks w0 in
  match service ev (length (calls w0)) GetAllStocks with
  | Ok v =>
      if truthy v then
        match cache w0 !! "stocks" with
        | Some _ =>
            match py_len v with
            | Ok n =>
                (Ok (jsonify (StatusSuccess v false (IsoFormat (clock ev (ticks w0))) n)),
                 stored ev "stocks" v w1)
            | Raise x => api_failed ev x (stored ev "stocks" v w1)
            end
        | None => api_failed ev (KeyError "stocks") w1
        end
      else
        (Ok (Response (StatusError (Literal "No stocks data available")
                                   (IsoFormat (clock ev (ticks w0)))) 404),
         tick w1)
  | Raise x => api_failed ev x w1
  end.

Definition endpoint_cached (key : string) (w0 : world) : result response * world :=
  match cache w0 !! key with
  | Some (Entry d (Some t)) => (Ok (jsonify (SuccessTrue d true (StrfTime t))), w0)
  | Some (Entry d None) => (Raise AttributeError, w0)
  | None => (Raise (KeyError key), w0)
  end.

Definition endpoint_fetched (key : string) (f : fetch_call) (what : string)
    (ev : env) (w0 : world) : result response * world :=
  let w1 := called f w0 in
  match service ev (length (calls w0)) f with
  | Ok v =>
      if truthy v then
        match cache w0 !! key with
        | Some _ =>
            (Ok (jsonify (SuccessTrue v false (StrfTime (clock ev (S (ticks w0)))))),
             tick (stored ev key v w1))
        | None => fetch_failed_with what (KeyError key) w1
        end
      else
        (Ok (jsonify (SuccessTrue v false (StrfTime (clock ev (ticks w0))))), tick w1)
  | Raise x => fetch_failed_with what x w1
  end.

Definition top_cached (key : string) (limit : Z) (w0 : world)
  : result response * world :=
  match cache w0 !! key with
  | Some (Entry d lu) =>
      match py_slice_to d limit with
      | Ok d' =>
          match lu with
          | Some t => (Ok (jsonify (SuccessTrue d' true (StrfTime t))), w0)
          | None => (Raise AttributeError, w0)
          end
      | Raise x => (Raise x, w0)
      end
  | None => (Raise (KeyError key), w0)
  end.

Definition top_fetched (key : string) (f : Z → fetch_call) (what : string)
    (limit : Z) (ev : env) (w0 : world) : result response * world :=
  let w1 := called (f limit) w0 in
  match service ev (length (calls w0)) (f limit) with
  | Ok v =>
      if truthy v then
        match cache w0 !! key with
        | Some _ =>
            match py_slice_to v limit with
            | Ok d =>
                (Ok (jsonify (SuccessTrue d false (StrfTime (clock ev (S (ticks w0)))))),
                 tick (stored ev key v w1))
            | Raise x => fetch_failed_with what x (stored ev key v w1)
            end
        | None => fetch_failed_with what (KeyError key) w1
        end
      else
        match py_slice_to v limit with
        | Ok d =>
            (Ok (jsonify (SuccessTrue d false (StrfTime (clock ev (ticks w0))))), tick w1)
        | Raise x => fetch_failed_with what x w1
        end
  | Raise x => fetch_failed_with what x w1
  end.

(** What [handle r] does once [is_cache_valid] has answered [True] and
    left the world [w0]. *)
Definition cached_branch (r : request) (ev : env) (w0 : world)
  : result response * world :=
  match r with
  | ReqStocks => stocks_cached ev w0
  | ReqIndices => endpoint_cached "indices" w0
  | ReqTopGainers a => top_cached "top_gainers" (args_get_limit a) w0
  | ReqTopLosers a => top_cached "top_losers" (args_get_limit a) w0
  | ReqSectors => endpoint_cached "sectors" w0
  | ReqMerolaganiLatest => endpoint_cached "merolagani_latest" w0
  end.

(** What [handle r] does once [is_cache_valid] has answered [False]. *)
Definition fetching_branch (r : request) (ev : env) (w0 : world)
  : result response * world :=
  match r with
  | ReqStocks => stocks_fetched ev w0
  | ReqIndices => endpoint_fetched "indices" GetIndices "indices" ev w0
  | ReqTopGainers a =>
      top_fetched "top_gainers" GetTopGainers "top gainers" (args_get_limit a) ev w0
  | ReqTopLosers a =>
      top_fetched "top_losers" GetTopLosers "top losers" (args_get_limit a) ev w0
  | ReqSectors => endpoint_fetched "sectors" GetSectorData "sectors" ev w0
  | ReqMerolaganiLatest =>
      endpoint_fetched "merolagani_latest" GetLatestMarketData "MeroLagani data" ev w0
  end.

(** ** Vocabulary of the statements *)

(** The service method a request falls back on. *)
Definition request_fetch (r : request) : fetch_call :=
  match r with
  | ReqStocks => GetAllStocks
  | ReqIndices => GetIndices
  | ReqTopGainers a => GetTopGainers (args_get_limit a)
  | ReqTopLosers a => GetTopLosers (args_get_limit a)
  | ReqSectors => GetSectorData
  | ReqMerolaganiLatest => GetLatestMarketData
  end.

(** The handlers that take [len] or a slice of the data, which the
    service methods behind them ([get_all_stocks], [get_top_gainers],
    [get_top_losers]) always return as a list. *)
Definition expects_list (r : request) : bool :=
  match r with
  | ReqStocks | ReqTopGainers _ | ReqTopLosers _ => true
  | _ => false
  end.

(** The data a response carries for the value [d]: [d[:limit]] on the two
    top lists, [d] itself elsewhere. *)
Definition truncated (r : request) (d : pyval) : pyval :=
  match r, d with
  | ReqTopGainers a, VList items | ReqTopLosers a, VList items =>
      VList (slice_to items (args_get_limit a))
  | _, _ => d
  end.

(** How a handler renders the instant [t]. *)
Definition rendered (r : request) (t : Z) : timestr :=
  match r with ReqStocks => IsoFormat t | _ => StrfTime t end.

Definition response_data (r : response) : option pyval :=
  match json r with
  | StatusSuccess d _ _ _ | SuccessTrue d _ _ => Some d
  | _ => None
  end.

Definition response_cached (r : response) : option bool :=
  match json r with
  | StatusSuccess _ c _ _ | SuccessTrue _ c _ => Some c
  | _ => None
  end.

Definition response_last_updated (r : response) : option timestr :=
  match json r with
  | StatusSuccess _ _ t _ | SuccessTrue _ _ t => Some t
  | _ => None
  end.

(** The freshness rule in the words of the specification: valid iff
    [fetchedAt] is present and [now - fetchedAt < ttl] (instants in
    microseconds, [ttl] in seconds). *)
Definition freshness (now : Z) (fetchedAt : option Z) (ttl : Z) : bool :=
  match fetchedAt with
  | Some t => bool_decide (now - t < ttl * MICROSECONDS)
  | None => false
  end.

(** An entry that is empty, or as old as the timeout at the next reading
    of the clock. *)
Definition stale (ev : env) (w : world) (e : entry) : Prop :=
  data e = VNone ∨
  match last_updated e with
  | None => True
  | Some t => CACHE_TIMEOUT ev * MICROSECONDS ≤ clock ev (ticks w) - t
  end.

(** A fetch that raised, or returned a falsy value. *)
Definition fetch_failed (r : result pyval) : Prop :=
  match r with
  | Raise _ => True
  | Ok v => truthy v = false
  end.

(** What one operation may do to the cache: nothing, or replace the entry of
    a key that is present by a truthy value and a timestamp. *)
Definition cache_step (c c' : gmap string entry) : Prop :=
  c' = c ∨
  ∃ key v t, is_Some (c !! key) ∧ truthy v = true ∧
             c' = <[key := Entry v (Some t)]> c.

Definition entry_consistent (e : entry) : Prop :=
  data e = VNone ↔ last_updated e = None.

Definition entries_consistent (c : gmap string entry) : Prop :=
  ∀ key e, c !! key = Some e → entry_consistent e.

Definition keys_fixed (c : gmap string entry) : Prop :=
  ∀ key, is_Some (c !! key) ↔ key ∈ cache_keys.

(** What the fetch of a pass that started in [w] and ended in [w'] leaves
    in the entry of its category, given its outcome [r]. *)
Definition refreshed (ev : env) (w w' : world) (key : string) (r : result pyval) : Prop :=
  match r with
  | Ok v =>
      if truthy v then
        is_Some (cache w !! key) →
        ∃ n, (ticks w ≤ n < ticks w')%nat ∧
             cache w' !! key = Some (Entry v (Some (clock ev n)))
      else cache w' !! key = cache w !! key
  | Raise _ => cache w' !! key = cache w !! key
  end.

(** ** Sample processes *)

Definition nabil : pyval := VDict [("symbol", VStr "NABIL")].
Definition nica : pyval := VDict [("symbol", VStr "NICA")].
Definition scb : pyval := VDict [("symbol", VStr "SCB")].

(** The clock that shows [n] seconds at its [n]-th reading. *)
Definition seconds_clock (n : nat) : Z := Z.of_nat n * MICROSECONDS.

(** The unofficial API answers every top-list query with three records. *)
Definition three_gainers : NepseService.upstream :=
  NepseService.Upstream
    (NepseService.HttpResponse 200 (Ok (VList [nabil; nica; scb]))) (Ok []).

(** A process with a timeout of 300 seconds whose top lists come from
    [three_gainers] and whose other services return nothing. *)
Definition gainers_env : env :=
  Env 300 seconds_clock (nepse_service (λ _, three_gainers) (λ _ _, Ok (VList []))).

(** A process whose stock service raises and whose index service
    answers. *)
Definition flaky_env : env :=
  Env 300 seconds_clock
      (λ _ f, match f with
              | GetAllStocks => Raise (UpstreamError "timed out")
              | GetIndices => Ok (VList [VDict [("name", VStr "NEPSE")]])
              | _ => Ok (VList [])
              end).

(** A process whose stock service answers its first call and times out
    on every later one. *)
Definition outage_env : env :=
  Env 300 seconds_clock
      (λ n f, match f, n with
              | GetAllStocks, O => Ok (VList [nabil])
              | GetAllStocks, _ => Raise (UpstreamError "timed out")
              | _, _ => Ok (VList [])
              end).

(** A process whose wall clock is set back between its first and its
    second reading. *)
Definition stepping_back_env : env :=
  Env 300 (λ n, match n with O => 10 | _ => 5 end) (λ _ _, Ok (VList [])).

(** Unfolds the closed form of the branch of a handler. *)
Ltac unfold_branch :=
  unfold cached_branch, fetching_branch, stocks_cached, stocks_fetched,
    endpoint_cached, endpoint_fetched, top_cached, top_fetched,
    api_failed, fetch_failed_with, stored, called, tick.


(** ** Vocabulary of the further properties *)

(** The category a service method feeds. *)
Definition fetch_key (f : fetch_call) : string :=
  match f with
  | GetAllStocks => "stocks"
  | GetIndices => "indices"
  | GetTopGainers _ => "top_gainers"
  | GetTopLosers _ => "top_losers"
  | GetSectorData => "sectors"
  | GetLatestMarketData => "merolagani_latest"
  end.

(** What one operation does to the world, as far as the cache and the clock
    go: the clock is not turned back, and the cache is left alone or one
    entry that is present receives the truthy answer of a call of its own
    service method, with a reading of the clock taken during the operation. *)
Definition world_step (ev : env) (w w' : world) : Prop :=
  (ticks w ≤ ticks w')%nat ∧
  (cache w' = cache w ∨
   ∃ f v m n,
     is_Some (cache w !! fetch_key f) ∧
     service ev m f = Ok v ∧ truthy v = true ∧
     (ticks w ≤ n < ticks w')%nat ∧
     cache w' = <[fetch_key f := Entry v (Some (clock ev n))]> (cache w)).

(** Every timestamp of the cache is an earlier reading of the clock. *)
Definition stamps_read (ev : env) (w : world) : Prop :=
  ∀ key e t, cache w !! key = Some e → last_updated e = Some t →
             ∃ n, (n < ticks w)%nat ∧ t = clock ev n.

(** The two top lists hold [None] or a list. *)
Definition tops_are_lists (c : gmap string entry) : Prop :=
  ∀ key e, key = "top_gainers" ∨ key = "top_losers" →
           c !! key = Some e → data e = VNone ∨ is_list (data e) = true.

(** The stocks entry holds [None] or a list. *)
Definition stocks_is_list (c : gmap string entry) : Prop :=
  ∀ e, c !! "stocks" = Some e → data e = VNone ∨ is_list (data e) = true.

(** Services that catch their own exceptions, as every fetch method of
    [NepseService] and [MerolaganiService] does, and whose [get_all_stocks]
    returns a list. *)
Definition quiet (others : nat → fetch_call → result pyval) : Prop :=
  (∀ n f, ∃ v, others n f = Ok v) ∧
  (∀ n v, others n GetAllStocks = Ok v → is_list v = true).

(** A clock that is never set back. *)
Definition clock_monotone (ev : env) : Prop :=
  ∀ n m, (n ≤ m)%nat → clock ev n ≤ clock ev m.

(** What the two top-list methods promise about their result: a list, of at
    most [limit] records when [limit] is not negative, which is the start of
    the list the unofficial API answered with, and empty when that API
    answered 200 with something that is not a list. *)
Definition top_list_bounded (get : NepseService.upstream → Z → pyval) : Prop :=
  ∀ u limit,
    ∃ items,
      get u limit = VList items ∧
      (0 ≤ limit → (length items ≤ Z.to_nat limit)%nat) ∧
      (∀ l, NepseService.top_ten u = NepseService.HttpResponse 200 (Ok (VList l)) →
            items = slice_to l limit ∧ items `prefix_of` l) ∧
      (∀ j, NepseService.top_ten u = NepseService.HttpResponse 200 (Ok j) →
            is_list j = false → items = []).

(** A process whose [CACHE_TIMEOUT] is zero. *)
Definition no_cache_env : env :=
  Env 0 seconds_clock (nepse_service (λ _, three_gainers) (λ _ _, Ok (VList []))).

(** A process whose [CACHE_TIMEOUT] is two seconds. *)
Definition short_env : env :=
  Env 2 seconds_clock (nepse_service (λ _, three_gainers) (λ _ _, Ok (VList []))).

(** ** The routes of [app.py] that are not cached *)

(** The methods the two service classes define, each with the least and the
    greatest number of arguments it takes after [self]. *)
Definition NepseService_methods : list (string * (nat * nat)) :=
  [("get_current_time", (0, 0)); ("get_all_stocks", (0, 0));
   ("get_indices", (0, 0)); ("get_top_gainers", (0, 1));
   ("get_top_losers", (0, 1)); ("get_sector_data", (0, 0));
   ("get_stock", (1, 1)); ("get_historical_data", (1, 2));
   ("get_market_depth", (1, 1)); ("get_floorsheet", (0, 1));
   ("get_market_status", (0, 0)); ("_parse_stock_data", (1, 1));
   ("_parse_index_data", (1, 1)); ("_parse_market_depth", (1, 1));
   ("_parse_floorsheet", (1, 1)); ("_format_historical_data", (1, 1));
   ("_scrape_stock_data_from_website", (0, 0))]%nat.

Definition MerolaganiService_methods : list (string * (nat * nat)) :=
  [("get_current_time", (0, 0)); ("get_latest_market_data", (0, 0));
   ("get_company_details", (1, 1)); ("get_market_news", (0, 1));
   ("_extract_sector_summary", (1, 1)); ("_extract_top_gainers", (1, 1));
   ("_extract_top_losers", (1, 1)); ("_extract_top_turnover", (1, 1));
   ("_extract_top_volume", (1, 1)); ("_extract_market_summary", (1, 1));
   ("_extract_company_details", (2, 2)); ("_extract_news", (2, 2));
   ("_parse_number", (1, 1))]%nat.

(** The lookup of a method name on a service object. *)
Fixpoint getattr (table : list (string * (nat * nat))) (name : string)
  : option (nat * nat) :=
  match table with
  | [] => None
  | (n, arity) :: rest => if String.eqb n name then Some arity else getattr rest name
  end.

(** [service.name(a1, ..., an)]: an [AttributeError] when the class has no
    such method, a [TypeError] when the method does not take [nargs]
    arguments, and otherwise what the body of the method answers. *)
Definition method_call (table : list (string * (nat * nat))) (name : string)
    (nargs : nat) (answer : result pyval) : M pyval :=
  match getattr table name with
  | None => raise AttributeError
  | Some (least, most) =>
      if (least <=? nargs)%nat && (nargs <=? most)%nat then lift answer
      else raise TypeError
  end.

(** The JSON bodies of the routes that are not cached: an error body of the
    cached routes, [{'success': True, 'data': ...}], or
    [{'status': 'success', 'data': ..., 'timestamp': ...}]. *)
Inductive reply_body : Type :=
| Shared (b : body)
| SuccessData (data : pyval)
| StatusData (data : pyval) (timestamp : timestr).

Record reply : Type := Reply {
  reply_json : reply_body;
  reply_status : nat
}.

(** The common text of [get_historical], [get_market_depth],
    [get_floorsheet], [get_market_status], [get_merolagani_company] and
    [get_merolagani_news]: one call of a service method inside [try], the
    answer returned without a look at it. *)
Definition plain_endpoint (table : list (string * (nat * nat))) (name : string)
    (nargs : nat) (what : string) (answer : result pyval) : M reply :=
  try_except
    (v <- method_call table name nargs answer ;;
     ret (Reply (SuccessData v) 200))
    (λ e, logger (LogFetchError what e) ;;
          ret (Reply (Shared (SuccessFalse (StrOf e))) 500)).

(** In each handler [answer] is what the body of the service method it
    calls answers to that call. *)

(** [nepse_service.get_historical_data(symbol, days)] *)
Definition get_historical (symbol : string) (days_arg : option Z)
    (answer : result pyval) : M reply :=
  plain_endpoint NepseService_methods "get_historical_data" 2
                 ("historical data for " ++ symbol) answer.

(** [nepse_service.get_market_depth(symbol)] *)
Definition get_market_depth (symbol : string) (answer : result pyval) : M reply :=
  plain_endpoint NepseService_methods "get_market_depth" 1
                 ("market depth for " ++ symbol) answer.

(** [nepse_service.get_floorsheet(symbol, limit)] *)
Definition get_floorsheet (symbol_arg : option string) (limit_arg : option Z)
    (answer : result pyval) : M reply :=
  plain_endpoint NepseService_methods "get_floorsheet" 2 "floorsheet" answer.

(** [nepse_service.get_market_status()] *)
Definition get_market_status (answer : result pyval) : M reply :=
  plain_endpoint NepseService_methods "get_market_status" 0 "market status" answer.

(** [merolagani_service.get_company_details(symbol)] *)
Definition get_merolagani_company (symbol : string) (answer : result pyval)
  : M reply :=
  plain_endpoint MerolaganiService_methods "get_company_details" 1
                 ("company details for " ++ symbol) answer.

(** [merolagani_service.get_latest_news(limit)] *)
Definition get_merolagani_news (limit_arg : option Z) (answer : result pyval)
  : M reply :=
  plain_endpoint MerolaganiService_methods "get_latest_news" 1 "news" answer.

(** [api_error_handler] around a handler of these routes. *)
Definition api_error_handler_reply (f : M reply) : M reply :=
  try_except f
    (λ e, logger (LogApiError e) ;;
          now <- datetime_now ;;
          ret (Reply (Shared (StatusError (StrOf e) (IsoFormat now))) 500)).

(** A response of a cached route as a reply, and a handler of a cached route
    as a handler of replies. *)
Definition as_reply (r : response) : reply :=
  Reply (Shared (json r)) (status_code r).

Definition map_reply (c : M response) : M reply :=
  r <- c ;; ret (as_reply r).

(** [get_stock], before decoration.  [strip] and [upper] are [str.strip]
    and [str.upper]. *)
Definition get_stock_undecorated (strip upper : string → string) (symbol : string)
    (answer : result pyval) : M reply :=
  if String.eqb symbol "" || (String.length (strip symbol) =? 0)%nat then
    now <- datetime_now ;;
    ret (Reply (Shared (StatusError (Literal "Stock symbol is required")
                                    (IsoFormat now))) 400)
  else
    let symbol := strip (upper symbol) in
    stock <- method_call NepseService_methods "get_stock_by_symbol" 1 answer ;;
    if negb (truthy stock) then
      now <- datetime_now ;;
      ret (Reply (Shared (StatusError (Literal ("Stock " ++ symbol ++ " not found"))
                                      (IsoFormat now))) 404)
    else
      now <- datetime_now ;;
      ret (Reply (StatusData stock (IsoFormat now)) 200).

Definition get_stock (strip upper : string → string) (symbol : string)
    (answer : result pyval) : M reply :=
  api_error_handler_reply (get_stock_undecorated strip upper symbol answer).

(** ** [validate_params] *)

(** What the decorator reads of the request: the method, the keys of
    [request.args] and of [request.form], [request.is_json] and the parsed
    body [request.json]. *)
Record flask_request : Type := FlaskRequest {
  method : string;
  args : list string;
  is_json : bool;
  json_body : pyval;
  form : list string
}.

(** The value of [params]: a multi-dict, of which the keys matter, or the
    parsed JSON body. *)
Inductive params : Type :=
| Keys (keys : list string)
| Json (v : pyval).

Definition request_params (req : flask_request) : params :=
  if String.eqb (method req) "GET" then Keys (args req)
  else if is_json req then Json (json_body req) else Keys (form req).

(** [x in s] for strings. *)
Definition is_substring (x s : string) : bool :=
  match String.index 0 x s with Some _ => true | None => false end.

(** [param in params]: a key of a dictionary, an element of a list, a
    substring of a string; a [TypeError] on the other JSON values. *)
Definition py_in (param : string) (p : params) : result bool :=
  match p with
  | Keys keys => Ok (bool_decide (param ∈ keys))
  | Json (VDict fields) => Ok (bool_decide (param ∈ fields.*1))
  | Json (VList items) =>
      Ok (existsb (λ v, match v with VStr s => String.eqb s param | _ => false end)
                  items)
  | Json (VStr s) => Ok (is_substring param s)
  | Json _ => Raise TypeError
  end.

(** [[param for param in required_params if param not in params]] *)
Fixpoint missing_params (required_params : list string) (p : params)
  : result (list string) :=
  match required_params with
  | [] => Ok []
  | param :: rest =>
      match py_in param p with
      | Raise e => Raise e
      | Ok present =>
          match missing_params rest p with
          | Raise e => Raise e
          | Ok missing => Ok (if present then missing else param :: missing)
          end
      end
  end.

(** The function [f] decorated by [validate_params] with the names
    [required_params], on the request [req]. *)
Definition validate_params (required_params : list string) (f : M response)
    (req : flask_request) : M response :=
  missing <- lift (missing_params required_params (request_params req)) ;;
  match missing with
  | _ :: _ =>
      now <- datetime_now ;;
      ret (Response
             (StatusError
                (Literal ("Missing required parameters: " ++ String.concat ", " missing))
                (IsoFormat now)) 400)
  | [] => f
  end.

(** ** [utils.py] and the last resort of [get_market_status] *)

Module Utils.

(** A [datetime] is a number of microseconds since 1970-01-01 00:00:00, a
    Thursday: [weekday()] counts from Monday, 0, to Sunday, 6. *)
Definition weekday (t : Z) : Z := (t / (86400 * MICROSECONDS) + 3) mod 7.
Definition hour (t : Z) : Z := (t / (3600 * MICROSECONDS)) mod 24.
Definition minute (t : Z) : Z := (t / (60 * MICROSECONDS)) mod 60.

(** [timedelta(hours=5, minutes=45)] *)
Definition nepal_offset : Z := (5 * 3600 + 45 * 60) * MICROSECONDS.

(** [get_nepal_time], from the reading of [datetime.utcnow()]. *)
Definition get_nepal_time (utcnow : Z) : Z := utcnow + nepal_offset.

(** [x in [0, 1, 2, 3, 4]] *)
Definition in_list (x : Z) (l : list Z) : bool := existsb (Z.eqb x) l.

Definition is_market_open (utcnow : Z) : bool :=
  let nepal_time := get_nepal_time utcnow in
  let current_time := hour nepal_time * 60 + minute nepal_time in
  let market_open := 11 * 60 in
  let market_close := 15 * 60 in
  let day_of_week := weekday nepal_time in
  let nepal_day := (day_of_week + 1) mod 7 in
  let is_weekday := in_list nepal_day [0; 1; 2; 3; 4] in
  let is_during_trading_hours :=
    (market_open <=? current_time) && (current_time <? market_close) in
  is_weekday && is_during_trading_hours.

End Utils.

Module NepseMarket.

(** [dict.get(key, default)] on the items of a dictionary. *)
Fixpoint dict_get (fields : list (string * pyval)) (key : string) (default : pyval)
  : pyval :=
  match fields with
  | [] => default
  | (k, v) :: rest => if String.eqb k key then v else dict_get rest key default
  end.

(** The time-based calculation at the end of [get_market_status]. *)
Definition is_open_by_time (utcnow : Z) : bool :=
  let nepal_time := utcnow + Utils.nepal_offset in
  let current_time := Utils.hour nepal_time * 60 + Utils.minute nepal_time in
  let market_open := 11 * 60 in
  let market_close := 15 * 60 in
  let day_of_week := Utils.weekday nepal_time in
  let is_weekday := Utils.in_list day_of_week [0; 1; 2; 3; 4] in
  let is_during_trading_hours :=
    (market_open <=? current_time) && (current_time <? market_close) in
  is_weekday && is_during_trading_hours.

Definition status_by_time (utcnow : Z) : pyval :=
  VDict [("isOpen", VBool (is_open_by_time utcnow));
         ("message", VStr (if is_open_by_time utcnow then "Market is open"
                           else "Market is closed"))].

(** The first [try] block: [Some] is a [return]; a reply that is not 200,
    an exception of the request or of [json()], and a body that has no
    [get] fall through to the official API. *)
Definition status_from_unofficial_api (reply : NepseService.http) : option pyval :=
  match reply with
  | NepseService.HttpResponse 200 (Ok (VDict fields)) =>
      Some (VDict [("isOpen", dict_get fields "isOpen" (VBool false));
                   ("message", dict_get fields "message" (VStr ""))])
  | _ => None
  end.

(** The second [try] block: the body of a 200 reply as it is. *)
Definition status_from_official_api (reply : NepseService.http) : option pyval :=
  match reply with
  | NepseService.HttpResponse 200 (Ok data) => Some data
  | _ => None
  end.

(** [get_market_status], from the replies of the two APIs and the reading
    of [datetime.utcnow()]. *)
Definition get_market_status (unofficial official : NepseService.http) (utcnow : Z)
  : pyval :=
  match status_from_unofficial_api unofficial with
  | Some v => v
  | None =>
      match status_from_official_api official with
      | Some v => v
      | None => status_by_time utcnow
      end
  end.

(** [get_indices], from the replies of the two APIs; [parse] is
    [_parse_index_data], which returns a list or raises. *)
Definition get_indices (parse : pyval → result (list pyval))
    (unofficial official : NepseService.http) : pyval :=
  let first :=
    match unofficial with
    | NepseService.HttpResponse 200 (Ok data) =>
        match parse data with Ok indices => Some (VList indices) | Raise _ => None end
    | _ => None
    end in
  match first with
  | Some v => v
  | None =>
      match official with
      | NepseService.HttpResponse 200 (Ok data) =>
          match parse data with Ok indices => VList indices | Raise _ => VList [] end
      | NepseService.HttpResponse 200 (Raise _) => VList []
      | NepseService.HttpResponse _ _ => VNone
      | NepseService.HttpRaises _ => VList []
      end
  end.

(** [get_all_stocks], from the replies of the two APIs and the list
    [_scrape_stock_data_from_website] returns; [parse] is
    [_parse_stock_data]. *)
Definition get_all_stocks (parse : pyval → result (list pyval))
    (unofficial official : NepseService.http) (scraped : list pyval) : pyval :=
  let attempt reply :=
    match reply with
    | NepseService.HttpResponse 200 (Ok data) =>
        match parse data with Ok stocks => Some (VList stocks) | Raise _ => None end
    | _ => None
    end in
  match attempt unofficial with
  | Some v => v
  | None =>
      match attempt official with
      | Some v => v
      | None => VList scraped
      end
  end.

End NepseMarket.

(** ** Vocabulary for the routes that are not cached *)

(** A route that passes the answer of its service method through: 200 with
    whatever the method returned, 500 when it raised, and neither the cache,
    nor the clock, nor the record of the calls of the cache touched. *)
Definition passes_through (h : result pyval → M reply) : Prop :=
  ∀ answer ev w,
    cache (h answer ev w).2 = cache w ∧
    ticks (h answer ev w).2 = ticks w ∧
    calls (h answer ev w).2 = calls w ∧
    (∀ v, answer = Ok v → h answer ev w = (Ok (Reply (SuccessData v) 200), w)) ∧
    (∀ e, answer = Raise e →
          (h answer ev w).1 = Ok (Reply (Shared (SuccessFalse (StrOf e))) 500)).

(** A route whose call of the service never reaches a method body: it
    answers 500 with [str(e)] for the same exception [e] whatever the
    service would answer, and leaves the cache alone. *)
Definition always_fails_with (e : exn) (h : result pyval → M reply) : Prop :=
  ∀ answer ev w,
    (h answer ev w).1 = Ok (Reply (Shared (SuccessFalse (StrOf e))) 500) ∧
    cache (h answer ev w).2 = cache w.

(** The JSON values that have no [in]. *)
Definition is_scalar (v : pyval) : bool :=
  match v with
  | VNone | VBool _ | VInt _ | VFloat _ _ => true
  | _ => false
  end.

(** The minutes of the day between 11:00 and 15:00. *)
Definition trading_hours (t : Z) : Prop :=
  11 * 60 ≤ Utils.hour t * 60 + Utils.minute t < 15 * 60.

(** A first attempt of [get_indices] that returns. *)
Definition returns_parsed (parse : pyval → result (list pyval))
    (reply : NepseService.http) : Prop :=
  ∃ data l, reply = NepseService.HttpResponse 200 (Ok data) ∧ parse data = Ok l.

(** ** [errors.py] *)

Module Errors.

(** A dictionary with string keys is the list of its items in the order of
    insertion.  [d.get(key)] *)
Fixpoint dict_lookup (d : list (string * pyval)) (key : string) : option pyval :=
  match d with
  | [] => None
  | (k, x) :: rest => if String.eqb k key then Some x else dict_lookup rest key
  end.

(** [d[key] = v] *)
Fixpoint dict_set (d : list (string * pyval)) (key : string) (v : pyval)
  : list (string * pyval) :=
  match d with
  | [] => [(key, v)]
  | (k, x) :: rest =>
      if String.eqb k key then (k, v) :: rest else (k, x) :: dict_set rest key v
  end.

(** [d.update(other)] *)
Definition dict_update (d other : list (string * pyval)) : list (string * pyval) :=
  foldl (λ acc kv, dict_set acc kv.1 kv.2) d other.

(** [if s:] on an optional string. *)
Definition given (s : option string) : bool :=
  match s with
  | Some s => negb (String.eqb s "")
  | None => false
  end.

(** [APIError]: what [__init__] stores. *)
Record APIError : Type := MkAPIError {
  message : string;
  status_code : nat;
  payload : list (string * pyval)
}.

Section classes.

(** [str(x)] *)
Variable str : pyval → string.

Definition ValidationError (msg : string) (field : option string)
    (value : pyval) : APIError :=
  let payload := [] in
  let payload := if given field then dict_set payload "field" (VStr (default "" field))
                 else payload in
  let payload := if is_none value then payload
                 else dict_set payload "invalid_value" (VStr (str value)) in
  MkAPIError msg 400 payload.

Definition NotFoundError (resource : string) (identifier : option string) : APIError :=
  let msg := resource ++ " not found" in
  let msg := if given identifier then msg ++ ": " ++ default "" identifier else msg in
  let payload := [("resource", VStr resource)] in
  let payload := if given identifier
                 then dict_set payload "identifier" (VStr (default "" identifier))
                 else payload in
  MkAPIError msg 404 payload.

Definition RateLimitError (limit : Z) (window : string) : APIError :=
  MkAPIError ("Rate limit exceeded: " ++ str (VInt limit) ++ " requests per " ++ window)
             429
             [("limit", VInt limit); ("window", VStr window); ("retry_after", VInt 60)].

Definition ExternalServiceError (service : string) (original_error : option string)
  : APIError :=
  let msg := "External service error: " ++ service in
  let msg := if given original_error then msg ++ " - " ++ default "" original_error
             else msg in
  let payload := [("service", VStr service); ("type", VStr "external_service_error")] in
  let payload := if given original_error
                 then dict_set payload "original_error" (VStr (default "" original_error))
                 else payload in
  MkAPIError msg 503 payload.

Definition CacheError (operation : string) (cache_key : option string) : APIError :=
  let msg := "Cache error during " ++ operation in
  let msg := if given cache_key then msg ++ " for key: " ++ default "" cache_key
             else msg in
  let payload := [("operation", VStr operation); ("type", VStr "cache_error")] in
  let payload := if given cache_key
                 then dict_set payload "cache_key" (VStr (default "" cache_key))
                 else payload in
  MkAPIError msg 500 payload.

Definition AuthenticationError (msg : option string) : APIError :=
  MkAPIError (default "Authentication required" msg) 401 [].

Definition AuthorizationError (msg : option string) : APIError :=
  MkAPIError (default "Insufficient permissions" msg) 403 [].

(** The errors the seven subclasses build. *)
Inductive built : APIError → Prop :=
| built_validation msg field value : built (ValidationError msg field value)
| built_not_found resource identifier : built (NotFoundError resource identifier)
| built_rate_limit limit window : built (RateLimitError limit window)
| built_external service original : built (ExternalServiceError service original)
| built_cache operation key : built (CacheError operation key)
| built_authentication msg : built (AuthenticationError msg)
| built_authorization msg : built (AuthorizationError msg).

End classes.

(** [to_dict], given the rendering of [datetime.now()] and the path and the
    method of the request, if there is one. *)
Definition to_dict (e : APIError) (timestamp : string)
    (request : option (string * string)) : list (string * pyval) :=
  let error_dict :=
    [("status", VStr "error");
     ("message", VStr (message e));
     ("timestamp", VStr timestamp);
     ("path", match request with Some (path, _) => VStr path | None => VNone end);
     ("method", match request with Some (_, m) => VStr m | None => VNone end)] in
  dict_update error_dict (payload e).

(** [handle_api_error]: the body and the status of the response (the line
    it logs is left out). *)
Definition handle_api_error (e : APIError) (timestamp : string)
    (request : option (string * string)) : list (string * pyval) * nat :=
  (to_dict e timestamp request, status_code e).

(** Whether one of the keywords of a call names a parameter that the call
    also passes by position: the parameter then gets two values, and Python
    raises [TypeError] at the call, before the body runs. *)
Definition names_parameter (parameters : list string)
    (kwargs : list (string * pyval)) : bool :=
  existsb (λ kv, existsb (String.eqb kv.1) parameters) kwargs.


(** [create_error_response(message, status_code, **kwargs)], for a call
    that passes [message] and [status_code] by position and [kwargs] as
    keywords. *)
Definition create_error_response (msg : string) (code : nat)
    (kwargs : list (string * pyval)) (timestamp : string)
  : result (list (string * pyval) * nat) :=
  if names_parameter ["message"; "status_code"] kwargs then Raise TypeError else
  Ok (dict_update [("status", VStr "error"); ("message", VStr msg);
                   ("timestamp", VStr timestamp)] kwargs,
      code).

End Errors.

(** The fields [to_dict] starts from. *)
Definition base_fields : list string :=
  ["status"; "message"; "timestamp"; "path"; "method"].

(** The statuses of the seven subclasses. *)
Definition error_statuses : list nat := [400; 404; 429; 503; 500; 401; 403]%nat.
(** * Properties *)

(** ** Run equations of the building blocks *)

Lemma bind_run {A B} (c : M A) (k : A → M B) ev w :
  bind c k ev w = match c ev w with
                  | (Ok a, w') => k a ev w'
                  | (Raise e, w') => (Raise e, w')
                  end.
Proof. reflexivity. Qed.

Lemma cache_put_run key v ev w :
  cache_put key v ev w =
  match cache w !! key with
  | Some _ => (Ok tt, stored ev key v w)
  | None => (Raise (KeyError key), w)
  end.
Proof.
  unfold cache_put, bind, set_data, datetime_now, set_last_updated, with_cache, stored.
  destruct (cache w !! key) as [e|]; [|done]. cbn.
  rewrite lookup_insert_eq. cbn. by rewrite insert_insert_eq.
Qed.

Lemma is_cache_valid_run key ev w :
  is_cache_valid key ev w =
  match cache w !! key with
  | Some (Entry d (Some t)) =>
      if is_none d then (Ok false, w)
      else (Ok (elapsed_lt_timeout (clock ev (ticks w)) t (CACHE_TIMEOUT ev)), tick w)
  | _ => (Ok false, w)
  end.
Proof.
  unfold is_cache_valid, bind, cache_has, cache_get, datetime_now, cache_timeout,
    ret, tick.
  destruct (cache w !! key) as [[d [t|]]|] eqn:E; cbn.
  all: try rewrite E; cbn; try done; by destruct (is_none d).
Qed.

Lemma is_cache_valid_cases key ev w :
  ∃ b w0, is_cache_valid key ev w = (Ok b, w0) ∧ (w0 = w ∨ w0 = tick w).
Proof.
  rewrite is_cache_valid_run.
  destruct (cache w !! key) as [[d [t|]]|]; eauto.
  destruct (is_none d); eauto.
Qed.

Lemma is_cache_valid_fresh key ev w d t :
  cache w !! key = Some (Entry d (Some t)) →
  d ≠ VNone →
  clock ev (ticks w) - t < CACHE_TIMEOUT ev * MICROSECONDS →
  is_cache_valid key ev w = (Ok true, tick w).
Proof.
  intros Hk Hd Hf. rewrite is_cache_valid_run, Hk.
  destruct d; try done; cbn; unfold elapsed_lt_timeout;
    by rewrite (proj2 (Z.ltb_lt _ _) Hf).
Qed.

Lemma is_cache_valid_stale key ev w e :
  cache w !! key = Some e →
  stale ev w e →
  ∃ w0, is_cache_valid key ev w = (Ok false, w0) ∧ (w0 = w ∨ w0 = tick w).
Proof.
  intros Hk Hs. rewrite is_cache_valid_run, Hk.
  destruct e as [d [t|]]; [|by eauto].
  destruct (is_none d) eqn:Hd; [by eauto|].
  destruct Hs as [Hs|Hs]; cbn in Hs; [by subst d|].
  unfold elapsed_lt_timeout. rewrite (proj2 (Z.ltb_ge _ _) Hs). eauto.
Qed.

(** ** One iteration of [update_cache] and the whole pass *)

Lemma update_one_run key f ev w :
  update_one (key, f) ev w =
  let say l := World (cache w) (ticks w) (calls w ++ [f]) (log w ++ [l]) in
  match service ev (length (calls w)) f with
  | Ok v =>
      if truthy v then
        match cache w !! key with
        | Some _ =>
            (Ok tt, World (<[key := Entry v (Some (clock ev (ticks w)))]> (cache w))
                          (S (ticks w)) (calls w ++ [f])
                          (log w ++ [LogUpdated key (data_count v)]))
        | None => (Ok tt, say (LogUpdateFailed key (KeyError key)))
        end
      else (Ok tt, say (LogNoData key))
  | Raise e => (Ok tt, say (LogUpdateFailed key e))
  end.
Proof.
  unfold update_one, try_except. rewrite bind_run. unfold call at 1. cbn.
  destruct (service ev (length (calls w)) f) as [v|e]; [|done].
  destruct (truthy v); [|done].
  rewrite bind_run, cache_put_run. cbn.
  by destruct (cache w !! key).
Qed.

Lemma update_one_cache_step op ev w :
  cache_step (cache w) (cache (update_one op ev w).2).
Proof.
  destruct op as [key f]. rewrite update_one_run. cbn.
  destruct (service _ _ _) as [v|]; [|by left].
  destruct (truthy v) eqn:Hv; [|by left].
  destruct (cache w !! key) eqn:Hk; [|by left].
  right. exists key, v, (clock ev (ticks w)). rewrite Hk. eauto.
Qed.

Lemma update_one_effect key f ev w :
  let out := update_one (key, f) ev w in
  out.1 = Ok tt ∧
  calls out.2 = (calls w ++ [f])%list ∧
  (ticks w ≤ ticks out.2)%nat ∧
  (∀ k, is_Some (cache out.2 !! k) ↔ is_Some (cache w !! k)) ∧
  (∀ k, k ≠ key → cache out.2 !! k = cache w !! k) ∧
  refreshed ev w out.2 key (service ev (length (calls w)) f).
Proof.
  rewrite update_one_run. unfold refreshed. cbn zeta.
  destruct (service ev (length (calls w)) f) as [v|e]; [|by split_and!].
  destruct (truthy v); [|by split_and!].
  destruct (cache w !! key) eqn:Hk; cbn; split_and!; try done; try lia.
  - intros k. rewrite lookup_insert_is_Some.
    split; [intros [<-|[_ ?]]; eauto|]. destruct (decide (key = k)); auto.
  - intros k ?. by rewrite lookup_insert_ne.
  - intros _. exists (ticks w). split; [lia|]. by rewrite lookup_insert_eq.
Qed.

Lemma for_each_update_one ev ops : ∀ w,
  NoDup ops.*1 →
  let r := for_each ops update_one ev w in
  r.1 = Ok tt ∧
  calls r.2 = (calls w ++ ops.*2)%list ∧
  (ticks w ≤ ticks r.2)%nat ∧
  (∀ key, is_Some (cache r.2 !! key) ↔ is_Some (cache w !! key)) ∧
  (∀ key, key ∉ ops.*1 → cache r.2 !! key = cache w !! key) ∧
  (∀ i key f, ops !! i = Some (key, f) →
     refreshed ev w r.2 key (service ev (length (calls w) + i) f)).
Proof.
  induction ops as [|[key0 f0] ops IH]; intros w Hnd.
  { cbn. rewrite app_nil_r. split_and!; done. }
  rewrite fmap_cons in Hnd. apply NoDup_cons in Hnd as [Hnotin Hnd].
  cbn [for_each fst] in *. rewrite bind_run.
  destruct (update_one_effect key0 f0 ev w) as (H1 & Hc & Ht & Hd & Ho & Hr).
  destruct (update_one (key0, f0) ev w) as [r1 w1]. cbn [fst snd] in *. subst r1.
  specialize (IH w1 Hnd) as (IH1 & IH2 & IH3 & IH4 & IH5 & IH6).
  cbn zeta. rewrite !fmap_cons. cbn [fst snd].
  split_and!.
  - done.
  - rewrite IH2, Hc. cbn. by rewrite <- app_assoc.
  - lia.
  - intros key. by rewrite IH4, Hd.
  - intros key Hkey. rewrite not_elem_of_cons in Hkey. destruct Hkey.
    rewrite IH5, Ho; done.
  - intros [|i] key f; cbn; intros Hi; simplify_eq.
    + rewrite Nat.add_0_r. revert Hr. unfold refreshed.
      rewrite IH5 by done.
      destruct (service ev (length (calls w)) f) as [v|]; [|done].
      destruct (truthy v); [|done].
      intros Hr Hin. destruct (Hr Hin) as (n & Hn & ?). exists n. split; [lia|done].
    + specialize (IH6 i key f Hi).
      assert (key ≠ key0) as Hne.
      { intros ->. apply Hnotin. apply list_elem_of_fmap. exists (key0, f).
        split; [done|]. by eapply list_elem_of_lookup_2. }
      replace (length (calls w) + S i)%nat with (length (calls w1) + i)%nat
        by (rewrite Hc, length_app; cbn; lia).
      revert IH6. unfold refreshed.
      destruct (service ev (length (calls w1) + i) f) as [v|];
        [|intros ->; by apply Ho].
      destruct (truthy v); [|intros ->; by apply Ho].
      rewrite <- Ho by done. intros IH6 Hin. destruct (IH6 Hin) as (n & ? & ?).
      exists n. split; [lia|done].
Qed.

Lemma cache_operations_keys : cache_operations.*1 = cache_keys.
Proof. reflexivity. Qed.

Lemma cache_keys_NoDup : NoDup cache_keys.
Proof. apply (bool_decide_unpack _). by vm_compute. Qed.

Lemma update_cache_run ev w :
  update_cache ev w =
  match for_each cache_operations update_one ev
          (World (cache w) (ticks w) (calls w) (log w ++ [LogUpdateStart])) with
  | (Ok _, w1) =>
      (Ok tt, World (cache w1) (ticks w1) (calls w1) (log w1 ++ [LogUpdateCompleted]))
  | (Raise e, w1) => (Raise e, w1)
  end.
Proof. reflexivity. Qed.

Lemma update_cache_pass ev w :
  let r := update_cache ev w in
  r.1 = Ok tt ∧
  calls r.2 = (calls w ++ cache_operations.*2)%list ∧
  (ticks w ≤ ticks r.2)%nat ∧
  (∀ key, is_Some (cache r.2 !! key) ↔ is_Some (cache w !! key)) ∧
  (∀ key, key ∉ cache_keys → cache r.2 !! key = cache w !! key) ∧
  (∀ i key f, cache_operations !! i = Some (key, f) →
     refreshed ev w r.2 key (service ev (length (calls w) + i) f)).
Proof.
  rewrite update_cache_run.
  set (w0 := World (cache w) (ticks w) (calls w) (log w ++ [LogUpdateStart])).
  pose proof (for_each_update_one ev cache_operations w0) as H.
  rewrite cache_operations_keys in H. specialize (H cache_keys_NoDup).
  destruct (for_each cache_operations update_one ev w0) as [r1 w1].
  cbn in H. destruct H as (-> & ? & ? & ? & ? & ?). by cbn.
Qed.

(** ** The handlers *)

Lemma get_stocks_valid ev w w0 :
  is_cache_valid "stocks" ev w = (Ok true, w0) →
  get_stocks ev w = stocks_cached ev w0.
Proof.
  intros H. unfold get_stocks, api_error_handler, get_stocks_undecorated, try_except.
  rewrite bind_run, H. unfold bind, cache_get, isoformat, lift, ret, raise.
  unfold stocks_cached.
  destruct (cache w0 !! "stocks") as [[d [t|]]|] eqn:Hk;
    repeat (progress (cbn; rewrite ?Hk)); try done.
  by destruct (py_len d).
Qed.

Lemma get_stocks_invalid ev w w0 :
  is_cache_valid "stocks" ev w = (Ok false, w0) →
  get_stocks ev w = stocks_fetched ev w0.
Proof.
  intros H. unfold get_stocks, api_error_handler, get_stocks_undecorated, try_except.
  rewrite bind_run, H. cbn iota. rewrite bind_run. unfold call at 1.
  unfold stocks_fetched. cbn zeta.
  destruct (service ev (length (calls w0)) GetAllStocks) as [v|x]; [|done].
  destruct (truthy v); cbn [negb]; [|done].
  rewrite bind_run, cache_put_run. cbn [cache called].
  destruct (cache w0 !! "stocks") as [e|] eqn:Hk; [|done].
  unfold bind, cache_get, isoformat, lift, ret, stored. cbn.
  rewrite lookup_insert_eq. cbn.
  by destruct (py_len v).
Qed.

Lemma cached_endpoint_valid key f what ev w w0 :
  is_cache_valid key ev w = (Ok true, w0) →
  cached_endpoint key f what ev w = endpoint_cached key w0.
Proof.
  intros H. unfold cached_endpoint. rewrite bind_run, H.
  unfold bind, cache_get, strftime, ret, raise, endpoint_cached.
  by destruct (cache w0 !! key) as [[d [t|]]|] eqn:Hk;
    repeat (progress (cbn; rewrite ?Hk)).
Qed.

Lemma cached_endpoint_invalid key f what ev w w0 :
  is_cache_valid key ev w = (Ok false, w0) →
  cached_endpoint key f what ev w = endpoint_fetched key f what ev w0.
Proof.
  intros H. unfold cached_endpoint, try_except. rewrite bind_run, H. cbn iota.
  rewrite bind_run. unfold call at 1. unfold endpoint_fetched. cbn zeta.
  destruct (service ev (length (calls w0)) f) as [v|x]; [|done].
  rewrite bind_run. destruct (truthy v); [|done].
  rewrite cache_put_run. cbn [cache called].
  by destruct (cache w0 !! key).
Qed.

Lemma top_endpoint_valid key f what a ev w w0 :
  is_cache_valid key ev w = (Ok true, w0) →
  top_endpoint key f what a ev w = top_cached key (args_get_limit a) w0.
Proof.
  intros H. unfold top_endpoint. rewrite bind_run, H.
  unfold bind, cache_get, strftime, lift, ret, raise, top_cached.
  destruct (cache w0 !! key) as [[d lu]|] eqn:Hk;
    repeat (progress (cbn; rewrite ?Hk)); [|done].
  destruct (py_slice_to d (args_get_limit a)); [|done].
  repeat (progress (cbn; rewrite ?Hk)). by destruct lu.
Qed.

Lemma top_endpoint_invalid key f what a ev w w0 :
  is_cache_valid key ev w = (Ok false, w0) →
  top_endpoint key f what a ev w = top_fetched key f what (args_get_limit a) ev w0.
Proof.
  intros H. unfold top_endpoint, try_except. rewrite bind_run, H. cbn iota zeta.
  rewrite bind_run. unfold call at 1. unfold top_fetched. cbn zeta.
  destruct (service ev (length (calls w0)) (f (args_get_limit a))) as [v|x]; [|done].
  rewrite bind_run. destruct (truthy v).
  - rewrite cache_put_run. cbn [cache called].
    destruct (cache w0 !! key); [|done].
    rewrite bind_run. unfold lift at 1. by destruct (py_slice_to v (args_get_limit a)).
  - unfold ret at 1. rewrite bind_run. unfold lift at 1.
    by destruct (py_slice_to v (args_get_limit a)).
Qed.

Lemma handle_valid r ev w w0 :
  is_cache_valid (request_key r) ev w = (Ok true, w0) →
  handle r ev w = cached_branch r ev w0.
Proof.
  destruct r; cbn [request_key handle cached_branch]; intros H.
  - by apply get_stocks_valid.
  - by apply cached_endpoint_valid.
  - by apply top_endpoint_valid.
  - by apply top_endpoint_valid.
  - by apply cached_endpoint_valid.
  - by apply cached_endpoint_valid.
Qed.

Lemma handle_invalid r ev w w0 :
  is_cache_valid (request_key r) ev w = (Ok false, w0) →
  handle r ev w = fetching_branch r ev w0.
Proof.
  destruct r; cbn [request_key handle fetching_branch]; intros H.
  - by apply get_stocks_invalid.
  - by apply cached_endpoint_invalid.
  - by apply top_endpoint_invalid.
  - by apply top_endpoint_invalid.
  - by apply cached_endpoint_invalid.
  - by apply cached_endpoint_invalid.
Qed.

Lemma cached_branch_frame r ev w0 :
  cache (cached_branch r ev w0).2 = cache w0 ∧
  calls (cached_branch r ev w0).2 = calls w0.
Proof. destruct r; unfold_branch; repeat case_match; done. Qed.

Lemma fetching_branch_cache_step r ev w0 :
  cache_step (cache w0) (cache (fetching_branch r ev w0).2).
Proof.
  destruct r; unfold_branch; cbn zeta; repeat case_match; cbn; try (by left).
  all: right; eexists _, _, _; split_and!; [|eassumption|reflexivity]; eauto.
Qed.

Lemma handle_cache_step r ev w : cache_step (cache w) (cache (handle r ev w).2).
Proof.
  destruct (is_cache_valid_cases (request_key r) ev w) as (b & w0 & Hv & Hw0).
  assert (cache w0 = cache w) as Hc by (by destruct Hw0 as [->| ->]).
  destruct b.
  - rewrite (handle_valid _ _ _ _ Hv). left.
    by rewrite (proj1 (cached_branch_frame r ev w0)).
  - rewrite (handle_invalid _ _ _ _ Hv), <- Hc. apply fetching_branch_cache_step.
Qed.

(** ** Invariants of the cache *)

Lemma truthy_not_none v : truthy v = true → v ≠ VNone.
Proof. by intros H ->. Qed.

Lemma cache_step_consistent c c' :
  cache_step c c' → entries_consistent c → entries_consistent c'.
Proof.
  intros [->|(key & v & t & Hin & Hv & ->)] Hent; [done|].
  intros k e. rewrite lookup_insert_Some.
  intros [[_ <-]|[_ ?]]; [|by eauto].
  split; cbn; [|done]. intros ?. by apply truthy_not_none in Hv.
Qed.

Lemma cache_step_keys c c' : cache_step c c' → keys_fixed c → keys_fixed c'.
Proof.
  unfold keys_fixed. intros [->|(key & v & t & Hin & Hv & ->)] Hdom; [done|].
  intros k. rewrite lookup_insert_is_Some, <- Hdom.
  split; [intros [<-|[_ ?]]; done | intros ?; destruct (decide (key = k)); auto].
Qed.

Lemma initial_cache_consistent : entries_consistent initial_cache.
Proof.
  intros key e H. apply elem_of_list_to_map_2 in H.
  apply list_elem_of_fmap in H as (k & [= _ ->] & _). done.
Qed.

Lemma initial_cache_keys : keys_fixed initial_cache.
Proof.
  intros key. unfold initial_cache.
  rewrite <- elem_of_dom, dom_list_to_map_L, elem_of_list_to_set.
  by rewrite <- list_fmap_compose, list_fmap_id.
Qed.

Section preserved.

(** A property of the cache that every single write preserves is preserved
    by a refresh pass, by a request and by a whole run. *)
Variable P : gmap string entry → Prop.
Hypothesis P_step : ∀ c c', cache_step c c' → P c → P c'.

Lemma for_each_update_one_preserves ev ops : ∀ w,
  P (cache w) → P (cache (for_each ops update_one ev w).2).
Proof.
  induction ops as [|op ops IH]; intros w Hw; [done|].
  cbn [for_each]. rewrite bind_run.
  pose proof (update_one_cache_step op ev w) as Hstep.
  destruct (update_one op ev w) as [[[]|e] w1]; cbn in Hstep.
  - apply IH. by eapply P_step.
  - by eapply P_step.
Qed.

Lemma update_cache_preserves ev w :
  P (cache w) → P (cache (update_cache ev w).2).
Proof.
  intros Hw. rewrite update_cache_run. set (w0 := World _ _ _ _).
  pose proof (for_each_update_one_preserves ev cache_operations w0 Hw) as H.
  destruct (for_each cache_operations update_one ev w0) as [[[]|e] w1]; by cbn.
Qed.

Lemma exec_preserves ev w e : P (cache w) → P (cache (exec ev w e)).
Proof.
  destruct e as [|r]; cbn.
  - by apply update_cache_preserves.
  - apply P_step, handle_cache_step.
Qed.

Lemma foldl_exec_preserves ev es : ∀ w,
  P (cache w) → P (cache (foldl (exec ev) w es)).
Proof.
  induction es as [|e es IH]; intros w Hw; [done|].
  cbn. by apply IH, exec_preserves.
Qed.

End preserved.

Lemma run_consistent ev es : entries_consistent (cache (run ev es)).
Proof.
  apply (foldl_exec_preserves entries_consistent cache_step_consistent).
  apply initial_cache_consistent.
Qed.

Lemma run_keys ev es : keys_fixed (cache (run ev es)).
Proof.
  apply (foldl_exec_preserves keys_fixed cache_step_keys).
  apply initial_cache_keys.
Qed.

(** ** The claims *)

(** C1.  For a [CACHE_TIMEOUT] below [2**33] seconds in absolute value
    (where the rounding of [total_seconds()] does not change the
    comparison): in every state the process can reach, and for every key,
    [is_cache_valid] returns the value of the freshness rule at the current
    reading of the clock, the entry's [last_updated] and [CACHE_TIMEOUT]: it
    returns [True] iff the entry has a timestamp [t] and [now - t], in
    seconds, is strictly below [CACHE_TIMEOUT], and [False] whenever the
    timestamp is absent. *)
Theorem is_cache_valid_freshness ev es key :
  exact_timeout (CACHE_TIMEOUT ev) →
  let w := run ev es in
  let now := clock ev (ticks w) in
  let stamp := cache w !! key ≫= last_updated in
  (is_cache_valid key ev w).1 = Ok (freshness now stamp (CACHE_TIMEOUT ev)) ∧
  ((is_cache_valid key ev w).1 = Ok true ↔
   ∃ t, stamp = Some t ∧ now - t < CACHE_TIMEOUT ev * MICROSECONDS) ∧
  (stamp = None → (is_cache_valid key ev w).1 = Ok false).
Proof.
  intros _ w now stamp.
  assert ((is_cache_valid key ev w).1 = Ok (freshness now stamp (CACHE_TIMEOUT ev)))
    as Heq.
  { rewrite is_cache_valid_run. subst stamp now.
    pose proof (run_consistent ev es) as Hent. fold w in Hent.
    destruct (cache w !! key) as [[d [t|]]|] eqn:Hk; cbn; [|done..].
    destruct (is_none d) eqn:Hd.
    - destruct d; try done. by apply Hent in Hk as [Hk _]; specialize (Hk eq_refl).
    - cbn. unfold elapsed_lt_timeout. f_equal.
      destruct (Z.ltb_spec (clock ev (ticks w) - t) (CACHE_TIMEOUT ev * MICROSECONDS)).
      + by rewrite bool_decide_true.
      + rewrite bool_decide_false; [done|lia]. }
  split_and!; [done| |].
  - rewrite Heq. unfold freshness. destruct stamp as [t|].
    + split.
      * intros [= H%bool_decide_eq_true]. eauto.
      * intros (t' & [= <-] & H). by rewrite bool_decide_true.
    + split; [done|]. by intros (? & ? & _).
  - intros Hs. by rewrite Heq, Hs.
Qed.

Lemma is_cache_valid_freshness_witness :
  exact_timeout (CACHE_TIMEOUT gainers_env) ∧
  cache (run gainers_env [Refresh]) !! "top_gainers"
    = Some (Entry (VList [nabil; nica; scb]) (Some 0)) ∧
  clock gainers_env (ticks (run gainers_env [Refresh])) = 2 * MICROSECONDS ∧
  (is_cache_valid "top_gainers" gainers_env (run gainers_env [Refresh])).1 = Ok true.
Proof.
  assert (exact_timeout (CACHE_TIMEOUT gainers_env)) as Hb
    by (vm_compute; split; reflexivity).
  split_and!; [exact Hb|vm_compute; reflexivity..|].
  destruct (is_cache_valid_freshness gainers_env [Refresh] "top_gainers" Hb)
    as (_ & H & _).
  apply H. exists 0. split; vm_compute; reflexivity.
Defined.

(** C2, as stated, fails: a put whose timestamp is older than the entry's
    is not skipped.  With a clock set back from 10 to 5 between two puts,
    the entry after both is the second value with the older timestamp, not
    the state after the first put. *)
Lemma older_put_is_not_rejected :
  let w1 := (cache_put "stocks" (VList [nabil]) stepping_back_env initial_world).2 in
  let w2 := (cache_put "stocks" (VList [nica]) stepping_back_env w1).2 in
  ∃ t1 t2,
    cache w1 !! "stocks" = Some (Entry (VList [nabil]) (Some t1)) ∧
    cache w2 !! "stocks" = Some (Entry (VList [nica]) (Some t2)) ∧
    t2 < t1 ∧
    cache w2 !! "stocks" ≠ cache w1 !! "stocks".
Proof.
  exists 10, 5. split_and!; [reflexivity | reflexivity | reflexivity |].
  vm_compute. discriminate.
Qed.

(** C2, amended.  Puts are unconditional: after a put of [v1] at [t1]
    followed by a put of [v2] at [t2], whatever the order of [t1] and [t2],
    the entry holds [v2] and [t2], as if the second put had been the only
    one. *)
Theorem cache_put_last_write_wins ev w key e v1 v2 :
  cache w !! key = Some e →
  let t1 := clock ev (ticks w) in
  let t2 := clock ev (S (ticks w)) in
  let w1 := (cache_put key v1 ev w).2 in
  let w2 := (cache_put key v2 ev w1).2 in
  cache w1 !! key = Some (Entry v1 (Some t1)) ∧
  cache w2 !! key = Some (Entry v2 (Some t2)) ∧
  cache w2 = <[key := Entry v2 (Some t2)]> (cache w).
Proof.
  intros Hk t1 t2 w1 w2. subst w2 w1.
  rewrite (cache_put_run key v1), Hk. unfold stored. cbn [snd].
  rewrite cache_put_run. cbn [cache ticks]. rewrite !lookup_insert_eq.
  unfold stored. cbn [snd cache ticks].
  by rewrite lookup_insert_eq, insert_insert_eq.
Qed.

Lemma cache_put_last_write_wins_witness :
  let w1 := (cache_put "stocks" (VList [nabil]) stepping_back_env initial_world).2 in
  let w2 := (cache_put "stocks" (VList [nica]) stepping_back_env w1).2 in
  cache w2 !! "stocks" = Some (Entry (VList [nica]) (Some 5)).
Proof.
  apply (cache_put_last_write_wins stepping_back_env initial_world "stocks"
           empty_entry (VList [nabil]) (VList [nica])).
  reflexivity.
Defined.

(** C3.  A refresh pass started in any reachable state ends without an
    exception and calls the six fetch functions once each, in the order of
    [cache_operations], whatever each of them does, in particular when some
    of them raise; and every category whose fetch returns a truthy value
    ends the pass with that value and a reading of the clock taken during
    the pass in its entry. *)
Theorem update_cache_failure_isolation ev es :
  let w := run ev es in
  let out := update_cache ev w in
  out.1 = Ok tt ∧
  calls out.2 = (calls w ++ cache_operations.*2)%list ∧
  ∀ i key f v,
    cache_operations !! i = Some (key, f) →
    service ev (length (calls w) + i) f = Ok v →
    truthy v = true →
    ∃ n, (ticks w ≤ n < ticks out.2)%nat ∧
         cache out.2 !! key = Some (Entry v (Some (clock ev n))).
Proof.
  intros w out.
  destruct (update_cache_pass ev w) as (H1 & H2 & _ & _ & _ & H6).
  split_and!; [done..|].
  intros i key f v Hi Hs Hv. specialize (H6 i key f Hi).
  unfold refreshed in H6. rewrite Hs, Hv in H6. apply H6.
  apply (run_keys ev es).
  rewrite <- cache_operations_keys. apply list_elem_of_fmap.
  exists (key, f). split; [done|]. by eapply list_elem_of_lookup_2.
Qed.

Lemma update_cache_failure_isolation_witness :
  service flaky_env 0 GetAllStocks = Raise (UpstreamError "timed out") ∧
  ∃ n, (0 ≤ n < ticks (update_cache flaky_env (run flaky_env [])).2)%nat ∧
       cache (update_cache flaky_env (run flaky_env [])).2 !! "indices" =
       Some (Entry (VList [VDict [("name", VStr "NEPSE")]]) (Some (clock flaky_env n))).
Proof.
  split; [reflexivity|].
  destruct (update_cache_failure_isolation flaky_env []) as (_ & _ & H).
  apply (H 1%nat "indices" GetIndices); reflexivity.
Defined.

(** C4.  For every category of the pass: an iteration whose fetch raises or
    returns a falsy value leaves the whole cache as it was before the
    iteration, and the entry of that category (value and timestamp) is
    after the pass what it was before it. *)
Theorem update_cache_no_clobber ev w i key f :
  cache_operations !! i = Some (key, f) →
  (∀ w', fetch_failed (service ev (length (calls w')) f) →
         cache (update_one (key, f) ev w').2 = cache w') ∧
  (fetch_failed (service ev (length (calls w) + i) f) →
   cache (update_cache ev w).2 !! key = cache w !! key).
Proof.
  intros Hi. split.
  - intros w' Hf. rewrite update_one_run. cbn zeta. unfold fetch_failed in Hf.
    destruct (service ev (length (calls w')) f) as [v|x]; [|done]. by rewrite Hf.
  - intros Hf. destruct (update_cache_pass ev w) as (_ & _ & _ & _ & _ & H6).
    specialize (H6 i key f Hi). unfold refreshed, fetch_failed in *.
    destruct (service ev (length (calls w) + i) f) as [v|x]; [|done].
    by rewrite Hf in H6.
Qed.

Lemma update_cache_no_clobber_witness :
  cache (run outage_env [Refresh]) !! "stocks"
    = Some (Entry (VList [nabil]) (Some 0)) ∧
  service outage_env (length (calls (run outage_env [Refresh])) + 0) GetAllStocks
    = Raise (UpstreamError "timed out") ∧
  cache (update_cache outage_env (run outage_env [Refresh])).2 !! "stocks"
    = Some (Entry (VList [nabil]) (Some 0)).
Proof.
  split_and!; [vm_compute; reflexivity..|].
  transitivity (cache (run outage_env [Refresh]) !! "stocks");
    [|vm_compute; reflexivity].
  apply (update_cache_no_clobber outage_env (run outage_env [Refresh]) 0 "stocks"
           GetAllStocks).
  - reflexivity.
  - exact I.
Defined.

(** C5, as stated, fails on the two top lists: the handler returns the
    cached list cut to the request's [limit], not the cached value.  After a
    pass that cached three gainers, a request with [limit=1] is answered
    from the cache with one record. *)
Lemma cached_top_gainers_are_truncated :
  let w := run gainers_env [Refresh] in
  ∃ e t resp,
    cache w !! "top_gainers" = Some e ∧
    data e ≠ VNone ∧
    last_updated e = Some t ∧
    clock gainers_env (ticks w) - t < CACHE_TIMEOUT gainers_env * MICROSECONDS ∧
    (handle (ReqTopGainers (Some 1)) gainers_env w).1 = Ok resp ∧
    response_cached resp = Some true ∧
    response_data resp ≠ Some (data e).
Proof.
  exists (Entry (VList [nabil; nica; scb]) (Some 0)), 0,
         (jsonify (SuccessTrue (VList [nabil]) true (StrfTime 0))).
  split_and!; try (vm_compute; reflexivity); vm_compute; discriminate.
Qed.

(** C5, amended.  For a [CACHE_TIMEOUT] below [2**33] seconds in absolute
    value and for every cached category, if the entry is populated and
    fresh at request time (and holds a list where the handler takes its
    length or a slice of it), the handler answers 200 with [cached=true],
    with [last_updated] rendering the entry's stored timestamp, and with the
    cached value as data, cut to the request's [limit] on [top_gainers]
    and [top_losers]; it makes no call of a fetch function and leaves the
    cache as it was. *)
Theorem handle_serves_fresh_entry r ev w e t :
  exact_timeout (CACHE_TIMEOUT ev) →
  cache w !! request_key r = Some e →
  data e ≠ VNone →
  last_updated e = Some t →
  clock ev (ticks w) - t < CACHE_TIMEOUT ev * MICROSECONDS →
  (expects_list r = true → is_list (data e) = true) →
  ∃ resp,
    (handle r ev w).1 = Ok resp ∧
    status_code resp = 200%nat ∧
    response_data resp = Some (truncated r (data e)) ∧
    response_cached resp = Some true ∧
    response_last_updated resp = Some (rendered r t) ∧
    calls (handle r ev w).2 = calls w ∧
    cache (handle r ev w).2 = cache w.
Proof.
  destruct e as [d lu]. cbn [data last_updated]. intros _ Hk Hd -> Hf Hl.
  rewrite (handle_valid _ _ _ _ (is_cache_valid_fresh _ _ _ _ _ Hk Hd Hf)).
  destruct r; cbn [request_key expects_list] in Hk, Hl;
    try (specialize (Hl eq_refl); destruct d; try done);
    unfold_branch; cbn [cache]; rewrite Hk; cbn;
    eexists; split_and!; reflexivity.
Qed.

Lemma handle_serves_fresh_entry_witness :
  ∃ resp,
    (handle (ReqTopGainers (Some 1)) gainers_env (run gainers_env [Refresh])).1 = Ok resp ∧
    status_code resp = 200%nat ∧
    response_data resp = Some (VList [nabil]) ∧
    response_cached resp = Some true ∧
    response_last_updated resp = Some (StrfTime 0) ∧
    calls (handle (ReqTopGainers (Some 1)) gainers_env (run gainers_env [Refresh])).2 =
      calls (run gainers_env [Refresh]) ∧
    cache (handle (ReqTopGainers (Some 1)) gainers_env (run gainers_env [Refresh])).2 =
      cache (run gainers_env [Refresh]).
Proof.
  apply (handle_serves_fresh_entry (ReqTopGainers (Some 1)) gainers_env
           (run gainers_env [Refresh]) (Entry (VList [nabil; nica; scb]) (Some 0)) 0).
  - vm_compute. split; reflexivity.
  - vm_compute. reflexivity.
  - discriminate.
  - reflexivity.
  - vm_compute. reflexivity.
  - reflexivity.
Defined.

(** C6, as stated, fails on the two top lists: the handler stores the
    fetched list and returns it cut once more to the request's [limit].
    On an empty entry, a request with [limit=-1] stores the two records the
    service returns and answers with one. *)
Lemma fetched_top_gainers_are_truncated :
  let out := handle (ReqTopGainers (Some (-1))) gainers_env initial_world in
  ∃ e v resp,
    cache initial_world !! "top_gainers" = Some e ∧ data e = VNone ∧
    service gainers_env 0 (GetTopGainers (-1)) = Ok v ∧
    truthy v = true ∧
    calls out.2 = [GetTopGainers (-1)] ∧
    data <$> cache out.2 !! "top_gainers" = Some v ∧
    out.1 = Ok resp ∧
    response_cached resp = Some false ∧
    response_data resp ≠ Some v.
Proof.
  exists empty_entry, (VList [nabil; nica]),
         (jsonify (SuccessTrue (VList [nabil]) false (StrfTime 1000000))).
  split_and!; try (vm_compute; reflexivity); vm_compute; discriminate.
Qed.

(** C6, amended.  For every cached category, if the entry is empty or at
    least as old as the timeout at request time, the handler calls that category's
    fetch function exactly once; when the fetch returns a truthy value (a
    list where the handler takes its length or a slice of it), the handler
    stores the value and a reading of the clock taken during the request in
    the entry and answers 200 with [cached=false] and the value as data,
    cut to the request's [limit] on [top_gainers] and [top_losers]. *)
Theorem handle_fetches_stale_entry r ev w e :
  cache w !! request_key r = Some e →
  stale ev w e →
  let out := handle r ev w in
  calls out.2 = (calls w ++ [request_fetch r])%list ∧
  ∀ v,
    service ev (length (calls w)) (request_fetch r) = Ok v →
    truthy v = true →
    (expects_list r = true → is_list v = true) →
    ∃ resp n,
      out.1 = Ok resp ∧
      status_code resp = 200%nat ∧
      response_data resp = Some (truncated r v) ∧
      response_cached resp = Some false ∧
      (ticks w ≤ n < ticks out.2)%nat ∧
      cache out.2 = <[request_key r := Entry v (Some (clock ev n))]> (cache w).
Proof.
  intros Hk Hs out. subst out.
  destruct (is_cache_valid_stale _ _ _ _ Hk Hs) as (w0 & Hv & Hw0).
  assert (cache w0 = cache w ∧ calls w0 = calls w ∧ (ticks w ≤ ticks w0)%nat)
    as (Hc & Hl & Ht) by (destruct Hw0 as [->| ->]; cbn; split_and!; (done || lia)).
  rewrite (handle_invalid _ _ _ _ Hv). split.
  - destruct r; unfold_branch; cbn zeta; repeat case_match; cbn; by rewrite Hl.
  - intros v Hsv Hv' Hlist. rewrite <- Hl in Hsv. rewrite <- Hc in Hk.
    destruct r; cbn [request_key request_fetch expects_list] in Hk, Hsv, Hlist;
      try (specialize (Hlist eq_refl); destruct v; try done);
      unfold_branch; cbn zeta; rewrite Hsv, Hv', Hk; cbn;
      eexists _, (ticks w0); split_and!;
      first [ lia | by rewrite Hc | reflexivity ].
Qed.

Lemma handle_fetches_stale_entry_witness :
  let out := handle (ReqTopGainers (Some 2)) gainers_env initial_world in
  ∃ resp n,
    out.1 = Ok resp ∧
    status_code resp = 200%nat ∧
    response_data resp = Some (VList [nabil; nica]) ∧
    response_cached resp = Some false ∧
    (0 ≤ n < ticks out.2)%nat ∧
    cache out.2 =
      <["top_gainers" := Entry (VList [nabil; nica]) (Some (clock gainers_env n))]>
        initial_cache.
Proof.
  destruct (handle_fetches_stale_entry (ReqTopGainers (Some 2)) gainers_env
              initial_world empty_entry) as [_ H].
  - reflexivity.
  - left. reflexivity.
  - apply (H (VList [nabil; nica])); reflexivity.
Defined.

(** C7 does not hold of the code: the request's [limit] reaches the cache.
    On an empty entry, with an upstream list of three records, a request with
    [limit=1] leaves one record in the cache where a request with [limit=3]
    leaves three, and a request with [limit=3] that follows the first one is
    answered from the cache with that single record. *)
Theorem request_limit_reaches_cache :
  let w1 := run gainers_env [Serve (ReqTopGainers (Some 1))] in
  let w3 := run gainers_env [Serve (ReqTopGainers (Some 3))] in
  data <$> cache w1 !! "top_gainers" = Some (VList [nabil]) ∧
  data <$> cache w3 !! "top_gainers" = Some (VList [nabil; nica; scb]) ∧
  ∃ resp,
    (handle (ReqTopGainers (Some 3)) gainers_env w1).1 = Ok resp ∧
    response_cached resp = Some true ∧
    response_data resp = Some (VList [nabil]).
Proof.
  split_and!; [by vm_compute..|].
  exists (jsonify (SuccessTrue (VList [nabil]) true (StrfTime 0))).
  split_and!; by vm_compute.
Qed.

(** C8, as stated, fails: for a key outside the fixed set the validity
    check raises nothing and answers [False]. *)
Lemma unknown_key_is_not_an_error :
  ("bogus" ∉ cache_keys) ∧
  is_cache_valid "bogus" gainers_env initial_world = (Ok false, initial_world).
Proof. split; [apply (bool_decide_unpack _)|]; by vm_compute. Qed.

(** C8, amended.  In every state the process can reach, for a key outside
    the fixed set [is_cache_valid] returns [False], raises nothing and
    changes nothing. *)
Theorem is_cache_valid_unknown_key ev es key :
  key ∉ cache_keys →
  is_cache_valid key ev (run ev es) = (Ok false, run ev es).
Proof.
  intros Hkey. rewrite is_cache_valid_run.
  destruct (cache (run ev es) !! key) as [e|] eqn:Hk; [|done].
  exfalso. apply Hkey, (run_keys ev es). eauto.
Qed.

Lemma is_cache_valid_unknown_key_witness :
  is_cache_valid "bogus" gainers_env (run gainers_env [Refresh]) =
  (Ok false, run gainers_env [Refresh]).
Proof.
  apply (is_cache_valid_unknown_key gainers_env [Refresh] "bogus").
  apply (bool_decide_unpack _). vm_compute. reflexivity.
Defined.

(** C9.  In every entry, [data] is [None] iff [last_updated] is [None]:
    this holds of the initial cache, is preserved by every refresh pass and
    by every request, and so holds in every state the process can reach. *)
Theorem data_and_last_updated_set_together :
  (∀ key e, initial_cache !! key = Some e →
            (data e = VNone ↔ last_updated e = None)) ∧
  (∀ ev w ev',
     (∀ key e, cache w !! key = Some e → (data e = VNone ↔ last_updated e = None)) →
     ∀ key e, cache (exec ev w ev') !! key = Some e →
              (data e = VNone ↔ last_updated e = None)) ∧
  (∀ ev es key e, cache (run ev es) !! key = Some e →
                  (data e = VNone ↔ last_updated e = None)).
Proof.
  split_and!.
  - apply initial_cache_consistent.
  - intros ev w ev' Hw.
    by apply (exec_preserves entries_consistent cache_step_consistent).
  - intros ev es. apply run_consistent.
Qed.

Lemma data_and_last_updated_set_together_witness :
  (data (Entry (VList [nabil; nica; scb]) (Some 0)) = VNone) ↔
  (last_updated (Entry (VList [nabil; nica; scb]) (Some 0)) = None).
Proof.
  destruct data_and_last_updated_set_together as (_ & _ & H).
  apply (H gainers_env [Refresh] "top_gainers"). vm_compute. reflexivity.
Defined.

(** C10.  [is_cache_valid] never changes the cache, and a request answered
    from the cache leaves the cache as it was: in particular the entry the
    handler read, whose list the two top-list handlers slice into a new
    list, is after the request what it was before. *)
Theorem cached_reads_leave_cache ev w :
  (∀ key, cache (is_cache_valid key ev w).2 = cache w) ∧
  (∀ r, (is_cache_valid (request_key r) ev w).1 = Ok true →
        cache (handle r ev w).2 = cache w ∧
        ∀ e, cache w !! request_key r = Some e →
             cache (handle r ev w).2 !! request_key r = Some e).
Proof.
  split.
  - intros key.
    destruct (is_cache_valid_cases key ev w) as (b & w0 & -> & [->| ->]); done.
  - intros r Hv.
    destruct (is_cache_valid_cases (request_key r) ev w) as (b & w0 & Hv' & Hw0).
    rewrite Hv' in Hv. cbn in Hv. injection Hv as ->.
    assert (cache (handle r ev w).2 = cache w) as Hc.
    { rewrite (handle_valid _ _ _ _ Hv'), (proj1 (cached_branch_frame r ev w0)).
      by destruct Hw0 as [->| ->]. }
    split; [done|]. intros e He. by rewrite Hc.
Qed.

Lemma cached_reads_leave_cache_witness :
  cache (handle (ReqTopGainers (Some 1)) gainers_env (run gainers_env [Refresh])).2 =
  cache (run gainers_env [Refresh]).
Proof.
  apply (cached_reads_leave_cache gainers_env (run gainers_env [Refresh])).
  vm_compute. reflexivity.
Defined.

(** * Further properties *)

(** ** Steps of the world *)

Lemma request_fetch_key r : fetch_key (request_fetch r) = request_key r.
Proof. by destruct r. Qed.

Lemma cache_operations_fetch_keys :
  Forall (λ op, op.1 = fetch_key op.2) cache_operations.
Proof. repeat constructor. Qed.

Lemma world_step_refl ev w w' :
  cache w' = cache w → (ticks w ≤ ticks w')%nat → world_step ev w w'.
Proof. intros Hc Ht. split; [done|by left]. Qed.

Lemma update_one_world_step ev f w :
  world_step ev w (update_one (fetch_key f, f) ev w).2.
Proof.
  rewrite update_one_run. cbn zeta.
  destruct (service ev (length (calls w)) f) as [v|x] eqn:Hs;
    [|by apply world_step_refl].
  destruct (truthy v) eqn:Hv; [|by apply world_step_refl].
  destruct (cache w !! fetch_key f) eqn:Hk; [|by apply world_step_refl].
  split; cbn; [lia|]. right.
  exists f, v, (length (calls w)), (ticks w).
  rewrite Hk. split_and!; eauto; lia.
Qed.

Lemma cached_branch_ticks r ev w0 :
  (ticks w0 ≤ ticks (cached_branch r ev w0).2)%nat.
Proof. destruct r; unfold_branch; repeat case_match; cbn; lia. Qed.

Lemma fetching_branch_world_step r ev w0 :
  world_step ev w0 (fetching_branch r ev w0).2.
Proof.
  destruct r; unfold_branch; cbn zeta; repeat case_match; cbn;
    try (apply world_step_refl; cbn; (done || lia)).
  all: split; cbn; [lia|right].
  all: eexists _, _, _, (ticks w0); split_and!;
    [|eassumption|eassumption| | |reflexivity]; cbn; eauto; lia.
Qed.

Lemma handle_world_step r ev w : world_step ev w (handle r ev w).2.
Proof.
  destruct (is_cache_valid_cases (request_key r) ev w) as (b & w0 & Hv & Hw0).
  assert (cache w0 = cache w ∧ (ticks w ≤ ticks w0)%nat) as [Hc Ht]
    by (destruct Hw0 as [->| ->]; cbn; split; (done || lia)).
  destruct b.
  - rewrite (handle_valid _ _ _ _ Hv). apply world_step_refl.
    + by rewrite (proj1 (cached_branch_frame r ev w0)).
    + pose proof (cached_branch_ticks r ev w0). lia.
  - rewrite (handle_invalid _ _ _ _ Hv).
    destruct (fetching_branch_world_step r ev w0) as [Ht' Hw].
    split; [lia|]. rewrite <- Hc.
    destruct Hw as [->|(f & v & m & n & ? & ? & ? & ? & ->)]; [by left|].
    right. exists f, v, m, n. split_and!; eauto; lia.
Qed.

Section preserved_by_steps.

(** A property of the world that every step preserves is preserved by a
    refresh pass, by a request and by a whole run. *)
Variable ev : env.
Variable P : world → Prop.
Hypothesis P_step : ∀ w w', world_step ev w w' → P w → P w'.

Lemma for_each_update_one_keeps ops : ∀ w,
  Forall (λ op, op.1 = fetch_key op.2) ops →
  P w → P (for_each ops update_one ev w).2.
Proof.
  induction ops as [|[key f] ops IH]; intros w Hops Hw; [done|].
  apply Forall_cons in Hops as [Hop Hops]. cbn in Hop. subst key.
  cbn [for_each]. rewrite bind_run.
  pose proof (update_one_world_step ev f w) as Hstep.
  pose proof (update_one_effect (fetch_key f) f ev w) as [H1 _].
  destruct (update_one (fetch_key f, f) ev w) as [r1 w1]. cbn in H1, Hstep. subst r1.
  apply IH; [done|]. by eapply P_step.
Qed.

Lemma update_cache_keeps w : P w → P (update_cache ev w).2.
Proof.
  intros Hw. rewrite update_cache_run. set (w0 := World _ _ _ _).
  assert (P w0) as Hw0.
  { eapply P_step; [|done]. by apply world_step_refl. }
  pose proof (for_each_update_one_keeps cache_operations w0
                cache_operations_fetch_keys Hw0) as H.
  destruct (for_each cache_operations update_one ev w0) as [[[]|e] w1]; cbn in *;
    [|done].
  eapply P_step; [|done]. by apply world_step_refl.
Qed.

Lemma exec_keeps w e : P w → P (exec ev w e).
Proof.
  destruct e as [|r]; cbn.
  - apply update_cache_keeps.
  - apply P_step, handle_world_step.
Qed.

Lemma foldl_exec_keeps es : ∀ w, P w → P (foldl (exec ev) w es).
Proof.
  induction es as [|e es IH]; intros w Hw; [done|].
  cbn. by apply IH, exec_keeps.
Qed.

End preserved_by_steps.

(** ** Python slices *)

Lemma slice_to_prefix {A} (l : list A) limit : slice_to l limit `prefix_of` l.
Proof. unfold slice_to. apply prefix_take. Qed.

Lemma slice_to_length {A} (l : list A) limit :
  0 ≤ limit → length (slice_to l limit) = Nat.min (Z.to_nat limit) (length l).
Proof.
  intros Hl. unfold slice_to, slice_stop. rewrite length_take.
  destruct (Z.ltb_spec limit 0); lia.
Qed.

Lemma slice_to_idemp {A} (l : list A) limit :
  0 ≤ limit → slice_to (slice_to l limit) limit = slice_to l limit.
Proof.
  intros Hl. pose proof (slice_to_length l limit Hl) as Hlen.
  unfold slice_to at 1. apply take_ge. unfold slice_stop.
  destruct (Z.ltb_spec limit 0); lia.
Qed.

Lemma get_top_gainers_is_list u limit :
  ∃ items, NepseService.get_top_gainers u limit = VList items.
Proof.
  unfold NepseService.get_top_gainers, NepseService.from_unofficial_api,
    NepseService.from_all_stocks.
  repeat case_match; simplify_eq; eauto.
Qed.

Lemma get_top_losers_eq u limit :
  NepseService.get_top_losers u limit = NepseService.get_top_gainers u limit.
Proof. reflexivity. Qed.

Lemma nepse_service_tops_are_lists tops others n f v key :
  key = "top_gainers" ∨ key = "top_losers" →
  fetch_key f = key →
  nepse_service tops others n f = Ok v →
  is_list v = true.
Proof.
  intros Hkey Hf Hs. destruct f; cbn in Hf, Hs;
    try (destruct Hkey; congruence); simplify_eq.
  - by destruct (get_top_gainers_is_list (tops n) limit) as [items ->].
  - rewrite get_top_losers_eq.
    by destruct (get_top_gainers_is_list (tops n) limit) as [items ->].
Qed.

(** ** Invariants carried by the steps *)

Lemma initial_cache_empty key e : initial_cache !! key = Some e → e = empty_entry.
Proof.
  intros H. apply elem_of_list_to_map_2 in H.
  by apply list_elem_of_fmap in H as (k & [= _ ->] & _).
Qed.

Lemma initial_stamps_read ev : stamps_read ev initial_world.
Proof. intros key e t Hk Hl. by apply initial_cache_empty in Hk as ->. Qed.

Lemma world_step_stamps ev w w' :
  world_step ev w w' → stamps_read ev w → stamps_read ev w'.
Proof.
  intros [Ht Hw] Hr key e t.
  destruct Hw as [->|(f & v & m & n & _ & _ & _ & Hn & ->)].
  - intros Hk Hl. destruct (Hr key e t Hk Hl) as (n & ? & ->). exists n. split; [lia|done].
  - rewrite lookup_insert_Some. intros [[_ <-]|[_ Hk]] Hl.
    + cbn in Hl. injection Hl as <-. exists n. split; [lia|done].
    + destruct (Hr key e t Hk Hl) as (n' & ? & ->). exists n'. split; [lia|done].
Qed.

Lemma run_stamps_read ev es : stamps_read ev (run ev es).
Proof.
  apply (foldl_exec_keeps ev (stamps_read ev) (world_step_stamps ev)).
  apply initial_stamps_read.
Qed.

Lemma world_step_tops tops others timeout clk w w' :
  world_step (Env timeout clk (nepse_service tops others)) w w' →
  tops_are_lists (cache w) → tops_are_lists (cache w').
Proof.
  intros [_ Hw] Hl key e Hkey.
  destruct Hw as [->|(f & v & m & n & _ & Hs & _ & _ & ->)]; [by apply Hl|].
  rewrite lookup_insert_Some. intros [[Hf <-]|[_ Hk]]; [|by eapply Hl].
  right. cbn. by eapply nepse_service_tops_are_lists.
Qed.

Lemma run_tops_are_lists tops others timeout clk es :
  tops_are_lists (cache (run (Env timeout clk (nepse_service tops others)) es)).
Proof.
  apply (foldl_exec_keeps _ (λ w, tops_are_lists (cache w))
           (world_step_tops tops others timeout clk)).
  intros key e _ Hk. left. by apply initial_cache_empty in Hk as ->.
Qed.

Lemma world_step_stocks tops others timeout clk w w' :
  quiet others →
  world_step (Env timeout clk (nepse_service tops others)) w w' →
  stocks_is_list (cache w) → stocks_is_list (cache w').
Proof.
  intros [_ Hq] [_ Hw] Hl e.
  destruct Hw as [->|(f & v & m & n & _ & Hs & _ & _ & ->)]; [by apply Hl|].
  rewrite lookup_insert_Some. intros [[Hf <-]|[_ Hk]]; [|by eapply Hl].
  right. cbn. destruct f; try done. cbn in Hs. by eapply Hq.
Qed.

Lemma run_stocks_is_list tops others timeout clk es :
  quiet others →
  stocks_is_list (cache (run (Env timeout clk (nepse_service tops others)) es)).
Proof.
  intros Hq.
  apply (foldl_exec_keeps _ (λ w, stocks_is_list (cache w))
           (λ w w', world_step_stocks tops others timeout clk w w' Hq)).
  intros e Hk. left. by apply initial_cache_empty in Hk as ->.
Qed.

(** ** The cache under requests and passes *)

Lemma cache_step_dom c c' : cache_step c c' → dom c' = dom c.
Proof.
  intros [->|(key & v & t & Hin & _ & ->)]; [done|].
  rewrite dom_insert_L. apply subseteq_union_1_L, singleton_subseteq_l.
  by apply elem_of_dom.
Qed.

(** X1.  No operation adds or removes a key of the cache, from whatever
    state it starts; the keys of every state the process can reach are the
    six of the initial dictionary. *)
Theorem cache_keys_never_change :
  (∀ ev w e, dom (cache (exec ev w e)) = dom (cache w)) ∧
  (∀ ev es, dom (cache (run ev es)) = list_to_set cache_keys).
Proof.
  split.
  - intros ev w e.
    apply (exec_preserves (λ c, dom c = dom (cache w))); [|done].
    intros c c' Hstep <-. by apply cache_step_dom.
  - intros ev es. apply set_eq. intros key.
    rewrite elem_of_dom, elem_of_list_to_set. apply run_keys.
Qed.




Lemma fetching_branch_calls r ev w0 :
  calls (fetching_branch r ev w0).2 = (calls w0 ++ [request_fetch r])%list.
Proof. destruct r; unfold_branch; cbn zeta; repeat case_match; done. Qed.

(** X3.  A request calls a service method at most once: not at all when
    [is_cache_valid] answers [True], and once, the method of its own
    category, when it answers [False]. *)
Theorem handle_calls_at_most_once r ev w :
  ∃ valid,
    (is_cache_valid (request_key r) ev w).1 = Ok valid ∧
    calls (handle r ev w).2 =
      (calls w ++ if valid then [] else [request_fetch r])%list.
Proof.
  destruct (is_cache_valid_cases (request_key r) ev w) as (b & w0 & Hv & Hw0).
  assert (calls w0 = calls w) as Hl by (by destruct Hw0 as [->| ->]).
  exists b. rewrite Hv. split; [done|]. destruct b.
  - rewrite (handle_valid _ _ _ _ Hv), (proj2 (cached_branch_frame r ev w0)), Hl.
    by rewrite app_nil_r.
  - by rewrite (handle_invalid _ _ _ _ Hv), fetching_branch_calls, Hl.
Qed.




(** X5.  Every timestamp in a reachable cache is a reading of the clock
    taken earlier in the run; so under a clock that is never set back the
    age [is_cache_valid] computes is never negative. *)
Theorem cached_stamps_are_clock_readings ev es key e t :
  cache (run ev es) !! key = Some e →
  last_updated e = Some t →
  (∃ n, (n < ticks (run ev es))%nat ∧ t = clock ev n) ∧
  (clock_monotone ev → 0 ≤ clock ev (ticks (run ev es)) - t).
Proof.
  intros Hk Hl.
  destruct (run_stamps_read ev es key e t Hk Hl) as (n & Hn & ->).
  split; [by eauto|]. intros Hm. specialize (Hm n (ticks (run ev es))). lia.
Qed.

Lemma cached_stamps_are_clock_readings_witness :
  ∃ n, (n < ticks (run gainers_env [Refresh]))%nat ∧ 0 = clock gainers_env n.
Proof.
  apply (cached_stamps_are_clock_readings gainers_env [Refresh] "top_gainers"
           (Entry (VList [nabil; nica; scb]) (Some 0)) 0).
  - vm_compute. reflexivity.
  - reflexivity.
Defined.

Lemma cached_branch_fresh r ev w0 d t :
  cache w0 !! request_key r = Some (Entry d (Some t)) →
  (expects_list r = true → is_list d = true) →
  ∃ resp,
    cached_branch r ev w0 = (Ok resp, w0) ∧
    status_code resp = 200%nat ∧
    response_data resp = Some (truncated r d) ∧
    response_cached resp = Some true ∧
    response_last_updated resp = Some (rendered r t).
Proof.
  intros Hk Hl.
  destruct r; cbn [request_key expects_list] in Hk, Hl;
    try (specialize (Hl eq_refl); destruct d; try done);
    unfold_branch; rewrite Hk; cbn; eexists; split_and!; reflexivity.
Qed.

(** X6.  A pass followed by a request, for a [CACHE_TIMEOUT] below [2**33]
    seconds in absolute value: if the fetch of a category returned a truthy
    value during a pass, the clock is never set back, and the request for
    that category reads the clock less than [CACHE_TIMEOUT] after the pass
    started, the request is answered from the cache with that value (cut to
    [limit] on the top lists), [cached=true], and no call of a service
    method. *)
Theorem refreshed_entry_is_served ev es i f v r :
  exact_timeout (CACHE_TIMEOUT ev) →
  let w := run ev es in
  let w' := (update_cache ev w).2 in
  cache_operations !! i = Some (request_key r, f) →
  service ev (length (calls w) + i) f = Ok v →
  truthy v = true →
  (expects_list r = true → is_list v = true) →
  clock_monotone ev →
  clock ev (ticks w') - clock ev (ticks w) < CACHE_TIMEOUT ev * MICROSECONDS →
  ∃ resp,
    (handle r ev w').1 = Ok resp ∧
    status_code resp = 200%nat ∧
    response_data resp = Some (truncated r v) ∧
    response_cached resp = Some true ∧
    calls (handle r ev w').2 = calls w'.
Proof.
  intros _ w w' Hi Hs Hv Hl Hm Hf.
  destruct (update_cache_pass ev w) as (_ & _ & _ & _ & _ & H6).
  specialize (H6 i _ f Hi). unfold refreshed in H6. rewrite Hs, Hv in H6.
  destruct H6 as (n & Hn & Hk).
  { apply (run_keys ev es). rewrite <- cache_operations_keys.
    apply list_elem_of_fmap. exists (request_key r, f).
    split; [done|]. by eapply list_elem_of_lookup_2. }
  fold w' in Hk, Hn.
  assert (clock ev (ticks w') - clock ev n < CACHE_TIMEOUT ev * MICROSECONDS) as Hfresh.
  { pose proof (Hm (ticks w) n). lia. }
  rewrite (handle_valid _ _ _ _
             (is_cache_valid_fresh _ _ _ _ _ Hk (truthy_not_none _ Hv) Hfresh)).
  destruct (cached_branch_fresh r ev (tick w') v (clock ev n) Hk Hl)
    as (resp & -> & ? & ? & ? & _).
  exists resp. by split_and!.
Qed.

Lemma seconds_clock_monotone : clock_monotone gainers_env.
Proof. intros n m Hnm. cbn. unfold seconds_clock, MICROSECONDS. lia. Qed.

Lemma refreshed_entry_is_served_witness :
  ∃ resp,
    (handle (ReqTopGainers (Some 2)) gainers_env
       (update_cache gainers_env (run gainers_env [])).2).1 = Ok resp ∧
    status_code resp = 200%nat ∧
    response_data resp = Some (VList [nabil; nica]) ∧
    response_cached resp = Some true ∧
    calls (handle (ReqTopGainers (Some 2)) gainers_env
             (update_cache gainers_env (run gainers_env [])).2).2 =
      calls (update_cache gainers_env (run gainers_env [])).2.
Proof.
  apply (refreshed_entry_is_served gainers_env [] 2 (GetTopGainers 10)
           (VList [nabil; nica; scb]) (ReqTopGainers (Some 2))).
  - vm_compute. split; reflexivity.
  - reflexivity.
  - reflexivity.
  - reflexivity.
  - reflexivity.
  - exact seconds_clock_monotone.
  - vm_compute. reflexivity.
Defined.

Lemma is_cache_valid_true key ev w w0 :
  is_cache_valid key ev w = (Ok true, w0) →
  cache w0 = cache w ∧
  ∃ d t, cache w !! key = Some (Entry d (Some t)) ∧ d ≠ VNone.
Proof.
  rewrite is_cache_valid_run.
  destruct (cache w !! key) as [[d [t|]]|]; [|done..].
  destruct (is_none d) eqn:Hd; [done|]. intros [= _ <-].
  split; [done|]. exists d, t. split; [done|]. by intros ->.
Qed.

Lemma fetching_branch_answers r ev w0 :
  ∃ resp, (fetching_branch r ev w0).1 = Ok resp.
Proof. destruct r; unfold_branch; cbn zeta; repeat case_match; cbn; eauto. Qed.

(** X7.  With the top-list methods of [NepseService], no exception leaves
    a handler of a cached route, in any state the process can reach and
    whatever the other services do: every request is answered. *)
Theorem handlers_always_answer tops others timeout clk es r :
  let ev := Env timeout clk (nepse_service tops others) in
  ∃ resp, (handle r ev (run ev es)).1 = Ok resp.
Proof.
  intros ev. set (w := run ev es).
  destruct (is_cache_valid_cases (request_key r) ev w) as (b & w0 & Hv & Hw0).
  destruct b; [|rewrite (handle_invalid _ _ _ _ Hv); apply fetching_branch_answers].
  rewrite (handle_valid _ _ _ _ Hv).
  destruct (is_cache_valid_true _ _ _ _ Hv) as (Hc & d & t & Hk & Hd).
  pose proof (run_tops_are_lists tops others timeout clk es) as Htops.
  fold ev w in Htops.
  destruct r; cbn [request_key] in Hk; unfold_branch; rewrite Hc, Hk;
    try (by repeat case_match; cbn; eauto).
  - destruct (Htops "top_gainers" _ (or_introl eq_refl) Hk) as [?|Hl]; [done|].
    cbn in Hl. destruct d; try done. cbn. eauto.
  - destruct (Htops "top_losers" _ (or_intror eq_refl) Hk) as [?|Hl]; [done|].
    cbn in Hl. destruct d; try done. cbn. eauto.
Qed.

Lemma request_key_known r : request_key r ∈ cache_keys.
Proof. destruct r; cbn; apply (bool_decide_unpack _); by vm_compute. Qed.

Lemma nepse_service_answers tops others n f :
  quiet others → ∃ v, nepse_service tops others n f = Ok v.
Proof. intros [Hq _]. destruct f; cbn; eauto. Qed.

Lemma fetching_branch_quiet tops others timeout clk r w0 :
  quiet others →
  is_Some (cache w0 !! request_key r) →
  ∃ resp, (fetching_branch r (Env timeout clk (nepse_service tops others)) w0).1
          = Ok resp ∧
          (status_code resp = 200%nat ∨ (r = ReqStocks ∧ status_code resp = 404%nat)).
Proof.
  intros Hq [e Hk].
  destruct (nepse_service_answers tops others (length (calls w0)) (request_fetch r) Hq)
    as [v Hs].
  assert (expects_list r = true → is_list v = true) as Hl.
  { destruct r; cbn; try done; intros _; cbn in Hs.
    - by eapply (proj2 Hq).
    - eapply (nepse_service_tops_are_lists tops others _ (GetTopGainers _));
        [by left|reflexivity|exact Hs].
    - eapply (nepse_service_tops_are_lists tops others _ (GetTopLosers _));
        [by right|reflexivity|exact Hs]. }
  destruct r; cbn [request_key request_fetch expects_list] in Hk, Hs, Hl;
    try (specialize (Hl eq_refl); destruct v; try done);
    unfold_branch; cbn zeta; cbn [service]; rewrite Hs, Hk;
    repeat case_match; cbn in *; try discriminate;
    (eexists; split; [reflexivity|]); cbn; auto.
Qed.

(** X8.  When the services catch their own exceptions, as the fetch methods
    of [NepseService] and [MerolaganiService] do, no cached route answers
    500 in any state the process can reach: every request is answered 200,
    or 404 by [get_stocks] when there are no stocks. *)
Theorem quiet_services_never_answer_500 tops others timeout clk es r :
  quiet others →
  let ev := Env timeout clk (nepse_service tops others) in
  ∃ resp, (handle r ev (run ev es)).1 = Ok resp ∧
          (status_code resp = 200%nat ∨ (r = ReqStocks ∧ status_code resp = 404%nat)).
Proof.
  intros Hq ev. set (w := run ev es).
  destruct (is_cache_valid_cases (request_key r) ev w) as (b & w0 & Hv & Hw0).
  assert (cache w0 = cache w) as Hc by (by destruct Hw0 as [->| ->]).
  destruct b.
  - rewrite (handle_valid _ _ _ _ Hv).
    destruct (is_cache_valid_true _ _ _ _ Hv) as (_ & d & t & Hk & Hd).
    rewrite <- Hc in Hk.
    destruct (cached_branch_fresh r ev w0 d t Hk) as (resp & -> & ? & _).
    + pose proof (run_tops_are_lists tops others timeout clk es) as Htops.
      pose proof (run_stocks_is_list tops others timeout clk es Hq) as Hstocks.
      fold ev w in Htops, Hstocks. rewrite Hc in Hk.
      destruct r; cbn [request_key] in Hk; cbn; try done; intros _.
      * by destruct (Hstocks _ Hk).
      * by destruct (Htops "top_gainers" _ (or_introl eq_refl) Hk).
      * by destruct (Htops "top_losers" _ (or_intror eq_refl) Hk).
    + exists resp. split; [done|by left].
  - rewrite (handle_invalid _ _ _ _ Hv).
    apply fetching_branch_quiet; [done|]. rewrite Hc. apply (run_keys ev es).
    apply request_key_known.
Qed.

Lemma gainers_others_quiet : quiet (λ _ _, Ok (VList [])).
Proof. split; [by eauto|]. by intros n v [= <-]. Qed.

Lemma quiet_services_never_answer_500_witness :
  ∃ resp, (handle ReqStocks gainers_env (run gainers_env [Refresh])).1 = Ok resp ∧
          (status_code resp = 200%nat ∨
           (ReqStocks = ReqStocks ∧ status_code resp = 404%nat)).
Proof.
  apply (quiet_services_never_answer_500 (λ _, three_gainers) (λ _ _, Ok (VList []))
           300 seconds_clock [Refresh] ReqStocks).
  exact gainers_others_quiet.
Defined.

(** ** The top lists and the request's limit *)

Lemma from_unofficial_api_cases u limit :
  (∃ l, NepseService.top_ten u = NepseService.HttpResponse 200 (Ok (VList l)) ∧
        NepseService.from_unofficial_api u limit = Some (VList (slice_to l limit))) ∨
  (∃ j, NepseService.top_ten u = NepseService.HttpResponse 200 (Ok j) ∧
        is_list j = false ∧
        NepseService.from_unofficial_api u limit = Some (VList [])) ∨
  (NepseService.from_unofficial_api u limit = None ∧
   ∀ j, NepseService.top_ten u ≠ NepseService.HttpResponse 200 (Ok j)).
Proof.
  unfold NepseService.from_unofficial_api.
  destruct (NepseService.top_ten u) as [x|code [j|x]].
  - right. right. done.
  - destruct (Z.eq_dec code 200) as [->|Hne].
    + destruct j; [right; left; eauto..|left; eauto|right; left; eauto].
    + right. right. split; [|congruence].
      repeat case_match; try done; by destruct Hne.
  - right. right. split; [|done]. by repeat case_match.
Qed.

Lemma get_top_gainers_bounded : top_list_bounded NepseService.get_top_gainers.
Proof.
  intros u limit.
  assert (∀ l : list pyval, 0 ≤ limit →
            (length (slice_to l limit) ≤ Z.to_nat limit)%nat) as Hlen.
  { intros l Hl. rewrite slice_to_length by done. lia. }
  unfold NepseService.get_top_gainers.
  destruct (from_unofficial_api_cases u limit)
    as [(l & Hu & ->)|[(j & Hu & Hj & ->)|[-> Hu]]].
  - exists (slice_to l limit). split_and!; [done|by auto| |].
    + intros l' Hl'. rewrite Hu in Hl'. injection Hl' as <-.
      split; [done|apply slice_to_prefix].
    + intros j Hj Hnl. rewrite Hu in Hj. injection Hj as <-. done.
  - exists []. split_and!; [done|cbn; lia| |done].
    intros l Hl. rewrite Hu in Hl. injection Hl as ->. done.
  - unfold NepseService.from_all_stocks.
    destruct (NepseService.sorted_stocks u) as [l|x]; eexists;
      (split_and!; [reflexivity| | |]); try (intros; by edestruct Hu);
      eauto; cbn; lia.
Qed.

Lemma get_top_gainers_sliced u limit :
  0 ≤ limit →
  ∃ items, NepseService.get_top_gainers u limit = VList items ∧
           slice_to items limit = items.
Proof.
  intros Hl. unfold NepseService.get_top_gainers, NepseService.from_all_stocks.
  destruct (from_unofficial_api_cases u limit)
    as [(l & Hu & ->)|[(j & Hu & Hj & ->)|[-> Hu]]].
  - eexists. split; [done|]. by apply slice_to_idemp.
  - exists []. split; [done|apply take_nil].
  - destruct (NepseService.sorted_stocks u) as [l|x]; eexists; (split; [done|]);
      [by apply slice_to_idemp|apply take_nil].
Qed.

(** X9.  [NepseService.get_top_gainers] and [get_top_losers] always return
    a list.  For a [limit] that is not negative the list has at most
    [limit] records; when the unofficial API answers 200 with a list, the
    result is the start of that list, and when it answers 200 with
    something else the result is empty. *)
Theorem get_top_lists_bounded :
  top_list_bounded NepseService.get_top_gainers ∧
  top_list_bounded NepseService.get_top_losers.
Proof. split; apply get_top_gainers_bounded. Qed.

Lemma get_top_lists_bounded_witness :
  ∃ items,
    NepseService.get_top_gainers three_gainers 2 = VList items ∧
    (length items ≤ Z.to_nat 2)%nat ∧
    items `prefix_of` [nabil; nica; scb].
Proof.
  destruct (proj1 get_top_lists_bounded three_gainers 2) as (items & H1 & H3 & H4 & _).
  exists items. split; [exact H1|]. split.
  - apply H3. vm_compute. discriminate.
  - apply (H4 [nabil; nica; scb]). reflexivity.
Defined.

(** X10.  With the top-list methods of [NepseService] and a [limit] that is
    not negative (the default 10 included), a request for a top list that
    finds its entry stale answers 200 with exactly the list the service
    returned, and that list is what it leaves in the cache when it is not
    empty: the second cut [[:limit]] of the handler changes nothing. *)
Theorem top_request_returns_what_it_stores tops others timeout clk w r a e :
  let ev := Env timeout clk (nepse_service tops others) in
  r = ReqTopGainers a ∨ r = ReqTopLosers a →
  cache w !! request_key r = Some e →
  stale ev w e →
  0 ≤ args_get_limit a →
  ∃ resp v,
    (handle r ev w).1 = Ok resp ∧
    service ev (length (calls w)) (request_fetch r) = Ok v ∧
    status_code resp = 200%nat ∧
    response_data resp = Some v ∧
    response_cached resp = Some false ∧
    (truthy v = true →
     data <$> cache (handle r ev w).2 !! request_key r = Some v).
Proof.
  intros ev Hr Hk Hs Hl.
  destruct (is_cache_valid_stale _ _ _ _ Hk Hs) as (w0 & Hv & Hw0).
  assert (cache w0 = cache w ∧ calls w0 = calls w) as [Hc Hcalls]
    by (by destruct Hw0 as [->| ->]).
  rewrite (handle_invalid _ _ _ _ Hv). rewrite <- Hc in Hk. rewrite <- Hcalls.
  destruct (get_top_gainers_sliced (tops (length (calls w0))) (args_get_limit a) Hl)
    as (items & Hitems & Hsl).
  exists (jsonify (SuccessTrue (VList items) false
            (StrfTime (clk (if truthy (VList items) then S (ticks w0) else ticks w0))))),
    (VList items).
  destruct Hr as [->| ->]; cbn [request_key request_fetch fetching_branch] in *;
    unfold_branch; cbn zeta; cbn [service ev nepse_service];
    rewrite ?get_top_losers_eq, Hitems, Hk; cbn [py_slice_to]; rewrite Hsl;
    destruct (truthy (VList items)); cbn; split_and!; try done;
    by rewrite lookup_insert_eq.
Qed.

Lemma top_request_returns_what_it_stores_witness :
  ∃ resp v,
    (handle (ReqTopGainers None) gainers_env initial_world).1 = Ok resp ∧
    service gainers_env (length (calls initial_world)) (GetTopGainers 10) = Ok v ∧
    status_code resp = 200%nat ∧
    response_data resp = Some v ∧
    response_cached resp = Some false ∧
    (truthy v = true →
     data <$> cache (handle (ReqTopGainers None) gainers_env initial_world).2
                !! "top_gainers" = Some v).
Proof.
  apply (top_request_returns_what_it_stores (λ _, three_gainers) (λ _ _, Ok (VList []))
           300 seconds_clock initial_world (ReqTopGainers None) None empty_entry).
  - left. reflexivity.
  - reflexivity.
  - left. reflexivity.
  - vm_compute. discriminate.
Defined.

(** ** Expiry *)

(** X11.  An entry that has expired stays expired until it is written: if
    [is_cache_valid] answers [False] for a key, then, under a clock that is
    never set back, it answers [False] again in any later world in which the
    entry of that key is the same. *)
Theorem expired_entry_stays_expired ev w w' key :
  clock_monotone ev →
  (ticks w ≤ ticks w')%nat →
  cache w' !! key = cache w !! key →
  (is_cache_valid key ev w).1 = Ok false →
  (is_cache_valid key ev w').1 = Ok false.
Proof.
  intros Hm Ht Hk. rewrite !is_cache_valid_run, Hk.
  destruct (cache w !! key) as [[d [t|]]|]; [|done..].
  destruct (is_none d); [done|]. cbn. unfold elapsed_lt_timeout.
  intros [= H]. f_equal. apply Z.ltb_ge. apply Z.ltb_ge in H.
  specialize (Hm _ _ Ht). lia.
Qed.

Lemma expired_entry_stays_expired_witness :
  let w := run short_env [Refresh] in
  let w' := run short_env [Refresh; Serve (ReqTopLosers None)] in
  cache w !! "top_gainers" = Some (Entry (VList [nabil; nica; scb]) (Some 0)) ∧
  clock short_env (ticks w) - 0 = CACHE_TIMEOUT short_env * MICROSECONDS ∧
  (is_cache_valid "top_gainers" short_env w).1 = Ok false ∧
  (is_cache_valid "top_gainers" short_env w').1 = Ok false.
Proof.
  intros w w'.
  assert ((is_cache_valid "top_gainers" short_env w).1 = Ok false) as Hw
    by (vm_compute; reflexivity).
  split_and!; [vm_compute; reflexivity..|exact Hw|].
  apply (expired_entry_stays_expired short_env w w' "top_gainers").
  - intros n m Hnm. cbn. unfold seconds_clock, MICROSECONDS. lia.
  - vm_compute. lia.
  - vm_compute. reflexivity.
  - exact Hw.
Defined.

(** X12.  A [CACHE_TIMEOUT] of zero or less turns the cache off: under a
    clock that is never set back, [is_cache_valid] answers [False] in every
    state the process can reach, so every request calls its service
    method. *)
Theorem nonpositive_timeout_disables_cache ev es r :
  clock_monotone ev →
  CACHE_TIMEOUT ev ≤ 0 →
  (is_cache_valid (request_key r) ev (run ev es)).1 = Ok false ∧
  calls (handle r ev (run ev es)).2 = (calls (run ev es) ++ [request_fetch r])%list.
Proof.
  intros Hm Ht.
  assert ((is_cache_valid (request_key r) ev (run ev es)).1 = Ok false) as Hv.
  { rewrite is_cache_valid_run.
    destruct (cache (run ev es) !! request_key r) as [[d [t|]]|] eqn:Hk; [|done..].
    destruct (is_none d); [done|]. cbn. f_equal. apply Z.ltb_ge.
    destruct (run_stamps_read ev es _ _ t Hk eq_refl) as (n & Hn & ->).
    specialize (Hm n (ticks (run ev es))). unfold MICROSECONDS. lia. }
  split; [done|].
  destruct (is_cache_valid_cases (request_key r) ev (run ev es))
    as (b & w0 & Hv' & Hw0).
  rewrite Hv' in Hv. injection Hv as ->.
  rewrite (handle_invalid _ _ _ _ Hv'), fetching_branch_calls.
  by destruct Hw0 as [->| ->].
Qed.

Lemma nonpositive_timeout_disables_cache_witness :
  (is_cache_valid "top_gainers" no_cache_env (run no_cache_env [Refresh])).1 = Ok false ∧
  calls (handle (ReqTopGainers None) no_cache_env (run no_cache_env [Refresh])).2 =
    (calls (run no_cache_env [Refresh]) ++ [GetTopGainers 10])%list.
Proof.
  apply (nonpositive_timeout_disables_cache no_cache_env [Refresh] (ReqTopGainers None)).
  - intros n m Hnm. cbn. unfold seconds_clock, MICROSECONDS. lia.
  - vm_compute. discriminate.
Defined.

(** ** The routes that are not cached *)

Lemma api_error_handler_reply_agrees (f : M response) ev w :
  map_reply (api_error_handler f) ev w = api_error_handler_reply (map_reply f) ev w.
Proof.
  unfold map_reply, api_error_handler, api_error_handler_reply, try_except, bind, ret.
  by destruct (f ev w) as [[r|e] w'].
Qed.

Lemma plain_endpoint_run table name nargs what answer ev w :
  plain_endpoint table name nargs what answer ev w =
  let failed e :=
    (Ok (Reply (Shared (SuccessFalse (StrOf e))) 500),
     World (cache w) (ticks w) (calls w) (log w ++ [LogFetchError what e])) in
  match getattr table name with
  | None => failed AttributeError
  | Some (least, most) =>
      if (least <=? nargs)%nat && (nargs <=? most)%nat then
        match answer with
        | Ok v => (Ok (Reply (SuccessData v) 200), w)
        | Raise e => failed e
        end
      else failed TypeError
  end.
Proof.
  unfold plain_endpoint, method_call, try_except, bind, lift, raise, ret, logger.
  destruct (getattr table name) as [[least most]|]; [|done].
  destruct ((least <=? nargs)%nat && (nargs <=? most)%nat); [|done].
  by destruct answer.
Qed.


Lemma plain_endpoint_passes table name nargs what least most :
  getattr table name = Some (least, most) →
  (least <=? nargs)%nat && (nargs <=? most)%nat = true →
  passes_through (plain_endpoint table name nargs what).
Proof.
  intros Hg Ha answer ev w. rewrite plain_endpoint_run, Hg, Ha. cbn zeta.
  destruct answer as [v|e]; cbn; split_and!; try done; by intros ? [= <-].
Qed.

(** X13.  [get_historical], [get_market_depth], [get_market_status] and
    [get_merolagani_company] call a method that exists with arguments it
    takes, and pass its answer through: 200 with whatever it returned, be
    it [None] or empty, 500 when it raised; they change neither the cache
    nor the clock. *)
Theorem plain_routes_pass_through :
  (∀ symbol days, passes_through (get_historical symbol days)) ∧
  (∀ symbol, passes_through (get_market_depth symbol)) ∧
  passes_through get_market_status ∧
  (∀ symbol, passes_through (get_merolagani_company symbol)).
Proof.
  split_and!; intros; by eapply plain_endpoint_passes.
Qed.

Lemma plain_routes_pass_through_witness :
  get_market_depth "NABIL" (Ok VNone) gainers_env initial_world =
  (Ok (Reply (SuccessData VNone) 200), initial_world).
Proof.
  destruct plain_routes_pass_through as (_ & H & _).
  apply (H "NABIL" (Ok VNone) gainers_env initial_world). reflexivity.
Defined.

(** X14.  Three routes never succeed.  [get_floorsheet] calls
    [get_floorsheet(symbol, limit)] on a method that takes one argument and
    [get_merolagani_news] calls [get_latest_news], which [MerolaganiService]
    does not define: both answer 500 to every request.  [get_stock] calls
    [get_stock_by_symbol], which [NepseService] does not define: it answers
    400 to a blank symbol and 500 to every other one, never 200 or 404.
    None of them changes the cache. *)
Theorem routes_that_never_succeed :
  (∀ symbol limit, always_fails_with TypeError (get_floorsheet symbol limit)) ∧
  (∀ limit, always_fails_with AttributeError (get_merolagani_news limit)) ∧
  (∀ strip upper symbol answer ev w,
     let out := get_stock strip upper symbol answer ev w in
     cache out.2 = cache w ∧
     ∃ body,
       out.1 = Ok (Reply (Shared body)
                     (if String.eqb symbol "" || (String.length (strip symbol) =? 0)%nat
                      then 400 else 500))).
Proof.
  split_and!.
  - intros symbol limit answer ev w. unfold get_floorsheet.
    by rewrite plain_endpoint_run.
  - intros limit answer ev w. unfold get_merolagani_news.
    by rewrite plain_endpoint_run.
  - intros strip upper symbol answer ev w.
    unfold get_stock, api_error_handler_reply, get_stock_undecorated, try_except.
    destruct (String.eqb symbol "" || (String.length (strip symbol) =? 0)%nat);
      cbn; eauto.
Qed.

(** ** [validate_params] *)

Lemma missing_params_keys required keys :
  missing_params required (Keys keys) = Ok (filter (λ p, p ∉ keys) required).
Proof.
  induction required as [|p required IH]; [done|].
  cbn [missing_params py_in]. rewrite IH, filter_cons.
  destruct (decide (p ∈ keys)) as [Hin|Hin].
  - rewrite bool_decide_true by done. by rewrite decide_False by auto.
  - rewrite bool_decide_false by done. by rewrite decide_True by auto.
Qed.

Lemma filter_missing_nil (required keys : list string) :
  filter (λ p, p ∉ keys) required = [] ↔ Forall (λ p, p ∈ keys) required.
Proof.
  induction required as [|p required IH]; [done|].
  rewrite filter_cons, Forall_cons.
  destruct (decide (p ∉ keys)) as [Hp|Hp].
  - split; [done|]. by intros [? _].
  - rewrite IH. apply dec_stable in Hp. tauto.
Qed.

(** X16.  [validate_params] on a request whose parameters are a multi-dict
    (any GET request, any form) or an object: when every required name is a
    key, the decorated function runs as if it were not decorated; otherwise
    it does not run, and the answer is 400 with the missing names in the
    order of [required_params], separated by commas.  On a JSON body that is
    a number, a boolean or [null], a first required name makes the
    decorator raise [TypeError] without running the function. *)
Theorem validate_params_checks_keys required f req :
  (∀ keys, request_params req = Keys keys ∨
           (∃ fields, request_params req = Json (VDict fields) ∧ keys = fields.*1) →
     (Forall (λ p, p ∈ keys) required → validate_params required f req = f) ∧
     (∀ ev w, ¬ Forall (λ p, p ∈ keys) required →
        validate_params required f req ev w =
        (Ok (Response
               (StatusError
                  (Literal ("Missing required parameters: " ++
                            String.concat ", " (filter (λ p, p ∉ keys) required)))
                  (IsoFormat (clock ev (ticks w)))) 400),
         tick w))) ∧
  (∀ v ev w, request_params req = Json v → is_scalar v = true → required ≠ [] →
     validate_params required f req ev w = (Raise TypeError, w)).
Proof.
  split.
  - intros keys Hp.
    assert (missing_params required (request_params req) =
            Ok (filter (λ p, p ∉ keys) required)) as Hm.
    { destruct Hp as [->|(fields & -> & ->)]; [apply missing_params_keys|].
      rewrite <- missing_params_keys. clear.
      induction required as [|p required IH]; [done|]. cbn. by rewrite IH. }
    unfold validate_params. rewrite Hm. split.
    + intros Hall. apply filter_missing_nil in Hall. by rewrite Hall.
    + intros ev w Hnot.
      destruct (filter (λ p, p ∉ keys) required) as [|p ps] eqn:Hf; [|done].
      by apply filter_missing_nil in Hf.
  - intros v ev w Hp Hs Hne. unfold validate_params. rewrite Hp.
    destruct required as [|p required]; [done|].
    by destruct v.
Qed.

Lemma validate_params_checks_keys_witness :
  validate_params ["symbol"; "days"] get_stocks
    (FlaskRequest "GET" ["days"] false VNone []) gainers_env initial_world =
  (Ok (Response
         (StatusError (Literal "Missing required parameters: symbol")
                      (IsoFormat 0)) 400),
   tick initial_world).
Proof.
  destruct (validate_params_checks_keys ["symbol"; "days"] get_stocks
              (FlaskRequest "GET" ["days"] false VNone [])) as [H _].
  destruct (H ["days"]) as [_ H2]; [left; reflexivity|].
  apply (H2 gainers_env initial_world).
  intros Hall. apply Forall_cons in Hall as [Hin _].
  apply list_elem_of_singleton in Hin. discriminate.
Defined.

(** ** The two rules for the trading days *)

Lemma weekday_range t : 0 ≤ Utils.weekday t < 7.
Proof. unfold Utils.weekday. apply Z.mod_pos_bound. lia. Qed.

Lemma is_market_open_iff utcnow :
  let t := Utils.get_nepal_time utcnow in
  Utils.is_market_open utcnow = true ↔
  trading_hours t ∧ (Utils.weekday t = 6 ∨ 0 ≤ Utils.weekday t ≤ 3).
Proof.
  intros t. unfold Utils.is_market_open, trading_hours. fold t.
  pose proof (weekday_range t) as Hw. cbv zeta.
  rewrite andb_true_iff, andb_true_iff, Z.leb_le, Z.ltb_lt.
  assert (Utils.in_list ((Utils.weekday t + 1) mod 7) [0; 1; 2; 3; 4] = true ↔
          (Utils.weekday t = 6 ∨ 0 ≤ Utils.weekday t ≤ 3)) as ->; [|tauto].
  assert (Utils.weekday t = 0 ∨ Utils.weekday t = 1 ∨ Utils.weekday t = 2 ∨
          Utils.weekday t = 3 ∨ Utils.weekday t = 4 ∨ Utils.weekday t = 5 ∨
          Utils.weekday t = 6) as Hd by lia.
  destruct Hd as [->|[->|[->|[->|[->|[->| ->]]]]]]; cbn; split; (done || lia).
Qed.

Lemma is_open_by_time_iff utcnow :
  let t := Utils.get_nepal_time utcnow in
  NepseMarket.is_open_by_time utcnow = true ↔
  trading_hours t ∧ 0 ≤ Utils.weekday t ≤ 4.
Proof.
  intros t. unfold NepseMarket.is_open_by_time, trading_hours.
  change (utcnow + Utils.nepal_offset) with t.
  pose proof (weekday_range t) as Hw. cbv zeta.
  rewrite andb_true_iff, andb_true_iff, Z.leb_le, Z.ltb_lt.
  assert (Utils.in_list (Utils.weekday t) [0; 1; 2; 3; 4] = true ↔
          0 ≤ Utils.weekday t ≤ 4) as ->; [|tauto].
  assert (Utils.weekday t = 0 ∨ Utils.weekday t = 1 ∨ Utils.weekday t = 2 ∨
          Utils.weekday t = 3 ∨ Utils.weekday t = 4 ∨ Utils.weekday t = 5 ∨
          Utils.weekday t = 6) as Hd by lia.
  destruct Hd as [->|[->|[->|[->|[->|[->| ->]]]]]]; cbn; split; (done || lia).
Qed.

(** X17.  [utils.is_market_open] and the last resort of
    [NepseService.get_market_status] read the same clock with two rules:
    the first holds the market open from 11:00 to 15:00, Nepal time, from
    Sunday to Thursday, the second from Monday to Friday.  They give
    different answers exactly during those hours of a Friday ([weekday()]
    4) and of a Sunday ([weekday()] 6). *)
Theorem market_open_rules_disagree utcnow :
  let t := Utils.get_nepal_time utcnow in
  (Utils.is_market_open utcnow = true ↔
   trading_hours t ∧ (Utils.weekday t = 6 ∨ 0 ≤ Utils.weekday t ≤ 3)) ∧
  (NepseMarket.is_open_by_time utcnow = true ↔
   trading_hours t ∧ 0 ≤ Utils.weekday t ≤ 4) ∧
  (Utils.is_market_open utcnow ≠ NepseMarket.is_open_by_time utcnow ↔
   trading_hours t ∧ (Utils.weekday t = 4 ∨ Utils.weekday t = 6)).
Proof.
  intros t.
  pose proof (is_market_open_iff utcnow) as H1.
  pose proof (is_open_by_time_iff utcnow) as H2.
  fold t in H1, H2. cbv zeta in H1, H2.
  split_and!; [done..|].
  destruct (Utils.is_market_open utcnow), (NepseMarket.is_open_by_time utcnow).
  - split; [done|]. intros [Hh Hd].
    destruct (proj1 H1 eq_refl), (proj1 H2 eq_refl). lia.
  - split; [intros _|done].
    destruct (proj1 H1 eq_refl) as [Hh Hd]. split; [done|].
    destruct (decide (0 ≤ Utils.weekday t ≤ 4)) as [Hd'|Hd']; [|lia].
    by specialize (proj2 H2 (conj Hh Hd')).
  - split; [intros _|done].
    destruct (proj1 H2 eq_refl) as [Hh Hd]. split; [done|].
    destruct (decide (Utils.weekday t = 6 ∨ 0 ≤ Utils.weekday t ≤ 3)) as [Hd'|Hd'];
      [|lia].
    by specialize (proj2 H1 (conj Hh Hd')).
  - split; [done|]. intros [Hh [Hd|Hd]].
    + assert (0 ≤ Utils.weekday t ≤ 4) as Hd' by lia.
      by specialize (proj2 H2 (conj Hh Hd')).
    + by specialize (proj2 H1 (conj Hh (or_introl Hd))).
Qed.

(** 2024-01-05 06:00 UTC is Friday 11:45 in Nepal. *)
Lemma market_open_rules_disagree_witness :
  Utils.is_market_open 1704434400000000 ≠
  NepseMarket.is_open_by_time 1704434400000000.
Proof.
  apply (market_open_rules_disagree 1704434400000000).
  split; [vm_compute; split; [discriminate|reflexivity]|]. left. reflexivity.
Defined.

(** ** What the fetch methods return *)

(** X18.  [get_all_stocks] always returns a list.  [get_indices] returns
    a list or [None], and [None] exactly when its first attempt does not
    return and the official API replies with a status other than 200: the
    method then ends without a [return]. *)
Theorem get_indices_may_return_none parse unofficial official scraped :
  (∃ l, NepseMarket.get_all_stocks parse unofficial official scraped = VList l) ∧
  ((∃ l, NepseMarket.get_indices parse unofficial official = VList l) ∨
   NepseMarket.get_indices parse unofficial official = VNone) ∧
  (NepseMarket.get_indices parse unofficial official = VNone ↔
   ¬ returns_parsed parse unofficial ∧
   ∃ code j, official = NepseService.HttpResponse code j ∧ code ≠ 200).
Proof.
  assert (∀ reply,
            returns_parsed parse reply ∨
            match reply with
            | NepseService.HttpResponse 200 (Ok data) =>
                match parse data with
                | Ok indices => Some (VList indices)
                | Raise _ => None
                end
            | _ => None
            end = None) as Hfirst.
  { intros reply. destruct reply as [x|code [data|x]]; try (right; by repeat case_match).
    destruct (Z.eq_dec code 200) as [->|Hne]; [|right; by repeat case_match].
    destruct (parse data) as [l|x] eqn:Hp; [left; by exists data, l|by right]. }
  assert (∀ reply l,
            match reply with
            | NepseService.HttpResponse 200 (Ok data) =>
                match parse data with
                | Ok indices => Some (VList indices)
                | Raise _ => None
                end
            | _ => None
            end = Some l → returns_parsed parse reply ∧ ∃ l', l = VList l') as Hsome.
  { intros reply v Hv. destruct reply as [x|code [data|x]];
      try (by repeat case_match).
    destruct (Z.eq_dec code 200) as [->|Hne]; [|by repeat case_match].
    destruct (parse data) as [l|x] eqn:Hp; [|done]. injection Hv as <-.
    split; [by exists data, l|by eauto]. }
  split_and!.
  - unfold NepseMarket.get_all_stocks.
    destruct (match unofficial with NepseService.HttpResponse 200 (Ok data) => _
                               | _ => None end) as [v|] eqn:H1.
    { by destruct (Hsome _ _ H1) as [_ [l ->]]; eauto. }
    destruct (match official with NepseService.HttpResponse 200 (Ok data) => _
                             | _ => None end) as [v|] eqn:H2; [|by eauto].
    by destruct (Hsome _ _ H2) as [_ [l ->]]; eauto.
  - unfold NepseMarket.get_indices. cbv zeta.
    destruct (match unofficial with NepseService.HttpResponse 200 (Ok data) => _
                               | _ => None end) as [v|] eqn:H1.
    { by destruct (Hsome _ _ H1) as [_ [l ->]]; eauto. }
    repeat case_match; eauto.
  - unfold NepseMarket.get_indices. cbv zeta.
    destruct (match unofficial with NepseService.HttpResponse 200 (Ok data) => _
                               | _ => None end) as [v|] eqn:H1.
    { destruct (Hsome _ _ H1) as [Hr [l ->]]. split; [done|]. by intros [? _]. }
    assert (¬ returns_parsed parse unofficial) as Hnr.
    { intros (data & l & -> & Hp). by rewrite Hp in H1. }
    destruct official as [x|code [data|x]].
    + split; [done|]. by intros [_ (? & ? & ? & _)].
    + destruct (Z.eq_dec code 200) as [->|Hne].
      * split; [by destruct (parse data)|]. by intros [_ (? & ? & [= <- _] & ?)].
      * split; [intros _; split; [done|by eauto]|]. intros _. by repeat case_match.
    + destruct (Z.eq_dec code 200) as [->|Hne].
      * split; [done|]. by intros [_ (? & ? & [= <- _] & ?)].
      * split; [intros _; split; [done|by eauto]|]. intros _. by repeat case_match.
Qed.

(** ** A request after a request *)

Lemma fetching_branch_stores r ev w0 e v :
  cache w0 !! request_key r = Some e →
  service ev (length (calls w0)) (request_fetch r) = Ok v →
  truthy v = true →
  (expects_list r = true → is_list v = true) →
  cache (fetching_branch r ev w0).2 !! request_key r =
    Some (Entry v (Some (clock ev (ticks w0)))) ∧
  (ticks w0 < ticks (fetching_branch r ev w0).2)%nat.
Proof.
  intros Hk Hs Hv Hl.
  destruct r; cbn [request_key request_fetch expects_list] in Hk, Hs, Hl;
    try (specialize (Hl eq_refl); destruct v; try done);
    unfold_branch; cbn zeta; rewrite Hs, Hv, Hk; cbn;
    (split; [by rewrite lookup_insert_eq|lia]).
Qed.

(** X19.  The limit of one request decides what the next ones see.  With
    the top-list methods of [NepseService]: after a request with a limit
    [a] that is not negative has found its top list stale and stored a list
    that is not empty, a request for the same list with any limit [b],
    made before the entry expires under a clock that is never set back and
    a [CACHE_TIMEOUT] below [2**33] seconds in absolute value, is answered
    from the cache, without a call of the service, with the start of the
    stored list: at most [a] records, however large [b] is. *)
Theorem later_request_sees_first_limit tops others timeout clk w e a b r r' :
  let ev := Env timeout clk (nepse_service tops others) in
  let w1 := (handle r ev w).2 in
  exact_timeout timeout →
  (r = ReqTopGainers a ∧ r' = ReqTopGainers b) ∨
  (r = ReqTopLosers a ∧ r' = ReqTopLosers b) →
  cache w !! request_key r = Some e →
  stale ev w e →
  0 ≤ args_get_limit a →
  (∀ v, service ev (length (calls w)) (request_fetch r) = Ok v → truthy v = true) →
  clock_monotone ev →
  clock ev (ticks w1) - clock ev (ticks w) < CACHE_TIMEOUT ev * MICROSECONDS →
  ∃ resp items stored,
    (handle r' ev w1).1 = Ok resp ∧
    response_cached resp = Some true ∧
    response_data resp = Some (VList items) ∧
    data <$> cache w1 !! request_key r = Some (VList stored) ∧
    items `prefix_of` stored ∧
    (length items ≤ Z.to_nat (args_get_limit a))%nat ∧
    calls (handle r' ev w1).2 = calls w1.
Proof.
  intros ev w1 _ Hr Hk Hs Ha Htr Hm Hfresh.
  assert (request_key r' = request_key r ∧ expects_list r = true ∧
          ∃ items, service ev (length (calls w)) (request_fetch r) = Ok (VList items) ∧
                   (length items ≤ Z.to_nat (args_get_limit a))%nat)
    as (Hkey & Hex & items & Hsv & Hlen).
  { destruct Hr as [[-> ->]|[-> ->]]; (split; [done|]); (split; [done|]);
      cbn [request_fetch service ev nepse_service].
    - destruct (get_top_gainers_bounded (tops (length (calls w))) (args_get_limit a))
        as (items & -> & Hb & _). eauto.
    - destruct (get_top_gainers_bounded (tops (length (calls w))) (args_get_limit a))
        as (items & Hi & Hb & _). rewrite get_top_losers_eq, Hi. eauto. }
  specialize (Htr _ Hsv).
  destruct (is_cache_valid_stale _ _ _ _ Hk Hs) as (w0 & Hv & Hw0).
  assert (cache w0 = cache w ∧ calls w0 = calls w ∧ (ticks w ≤ ticks w0)%nat)
    as (Hc & Hl & Ht) by (destruct Hw0 as [->| ->]; cbn; split_and!; (done || lia)).
  assert (w1 = (fetching_branch r ev w0).2) as Hw1
    by (unfold w1; by rewrite (handle_invalid _ _ _ _ Hv)).
  rewrite <- Hc in Hk. rewrite <- Hl in Hsv.
  destruct (fetching_branch_stores r ev w0 e (VList items) Hk Hsv Htr (λ _, eq_refl))
    as [Hstored Hticks].
  rewrite <- Hw1 in Hstored, Hticks.
  assert (clock ev (ticks w1) - clock ev (ticks w0) < CACHE_TIMEOUT ev * MICROSECONDS)
    as Hf.
  { pose proof (Hm _ _ Ht). lia. }
  rewrite <- Hkey in Hstored.
  rewrite (handle_valid _ _ _ _
             (is_cache_valid_fresh _ _ _ _ _ Hstored (truthy_not_none _ Htr) Hf)).
  destruct (cached_branch_fresh r' ev (tick w1) (VList items)
              (clock ev (ticks w0)) Hstored (λ _, eq_refl))
    as (resp & -> & _ & Hd & Hcached & _).
  exists resp, (slice_to items (args_get_limit b)), items.
  rewrite <- Hkey, Hstored. split_and!; try done.
  - rewrite Hd. by destruct Hr as [[_ ->]|[_ ->]].
  - apply slice_to_prefix.
  - pose proof (prefix_length _ _ (slice_to_prefix items (args_get_limit b))). lia.
Qed.

Lemma later_request_sees_first_limit_witness :
  ∃ resp items stored,
    (handle (ReqTopGainers (Some 3)) gainers_env
       (handle (ReqTopGainers (Some 1)) gainers_env initial_world).2).1 = Ok resp ∧
    response_cached resp = Some true ∧
    response_data resp = Some (VList items) ∧
    data <$> cache (handle (ReqTopGainers (Some 1)) gainers_env initial_world).2
               !! "top_gainers" = Some (VList stored) ∧
    items `prefix_of` stored ∧
    (length items ≤ Z.to_nat 1)%nat ∧
    calls (handle (ReqTopGainers (Some 3)) gainers_env
             (handle (ReqTopGainers (Some 1)) gainers_env initial_world).2).2 =
      calls (handle (ReqTopGainers (Some 1)) gainers_env initial_world).2.
Proof.
  apply (later_request_sees_first_limit (λ _, three_gainers) (λ _ _, Ok (VList []))
           300 seconds_clock initial_world empty_entry (Some 1) (Some 3)
           (ReqTopGainers (Some 1)) (ReqTopGainers (Some 3))).
  - vm_compute. split; reflexivity.
  - left. split; reflexivity.
  - reflexivity.
  - left. reflexivity.
  - vm_compute. discriminate.
  - intros v Hv. vm_compute in Hv. injection Hv as <-. reflexivity.
  - exact seconds_clock_monotone.
  - vm_compute. reflexivity.
Defined.

(** ** [errors.py] *)

Lemma dict_lookup_set d key v k :
  Errors.dict_lookup (Errors.dict_set d key v) k =
  if String.eqb key k then Some v else Errors.dict_lookup d k.
Proof.
  induction d as [|[k0 x] d IH]; cbn.
  - done.
  - destruct (String.eqb_spec k0 key) as [->|Hne]; cbn.
    + by destruct (String.eqb key k).
    + rewrite IH. destruct (String.eqb_spec k0 k) as [->|Hne']; [|done].
      destruct (String.eqb_spec key k) as [->|_]; done.
Qed.


Lemma dict_lookup_update other : ∀ d k,
  Errors.dict_lookup (Errors.dict_update d other) k =
  match Errors.dict_lookup (reverse other) k with
  | Some v => Some v
  | None => Errors.dict_lookup d k
  end.
Proof.
  unfold Errors.dict_update.
  induction other as [|[key v] other IH] using rev_ind; intros d k; [done|].
  rewrite foldl_app, reverse_app. cbn. rewrite dict_lookup_set.
  destruct (String.eqb key k); [done|]. apply IH.
Qed.


Lemma dict_lookup_app d1 d2 k :
  Errors.dict_lookup (d1 ++ d2) k =
  match Errors.dict_lookup d1 k with
  | Some v => Some v
  | None => Errors.dict_lookup d2 k
  end.
Proof.
  induction d1 as [|[k0 x] d1 IH]; cbn; [done|]. by destruct (String.eqb k0 k).
Qed.

Lemma dict_lookup_Some_key d k v :
  Errors.dict_lookup d k = Some v → k ∈ d.*1.
Proof.
  induction d as [|[k0 x] d IH]; cbn; [done|].
  rewrite elem_of_cons.
  destruct (String.eqb_spec k0 k) as [->|Hne]; [by left|].
  intros H. right. by apply IH.
Qed.

Lemma dict_lookup_reverse d k :
  NoDup d.*1 →
  Errors.dict_lookup (reverse d) k = Errors.dict_lookup d k.
Proof.
  induction d as [|[k0 x] d IH]; [done|].
  rewrite fmap_cons, NoDup_cons. intros [Hnotin Hnd].
  rewrite reverse_cons, dict_lookup_app, IH by done. cbn.
  destruct (Errors.dict_lookup d k) as [v|] eqn:Hk; [|done].
  apply dict_lookup_Some_key in Hk.
  destruct (String.eqb_spec k0 k) as [->|Hne]; done.
Qed.



(** X21.  The errors the seven subclasses build never hide a base field:
    whatever the arguments of the constructor, the dictionary of the error
    has [status] ['error'] and the error's own message, holds every item of
    the payload, and the status of the response is one of 400, 401, 403,
    404, 429, 500 and 503. *)
Theorem built_errors_keep_base_fields str e timestamp request :
  Errors.built str e →
  Errors.dict_lookup (Errors.to_dict e timestamp request) "status"
    = Some (VStr "error") ∧
  Errors.dict_lookup (Errors.to_dict e timestamp request) "message"
    = Some (VStr (Errors.message e)) ∧
  Errors.dict_lookup (Errors.to_dict e timestamp request) "timestamp"
    = Some (VStr timestamp) ∧
  (∀ k v, Errors.dict_lookup (Errors.payload e) k = Some v →
          Errors.dict_lookup (Errors.to_dict e timestamp request) k = Some v) ∧
  (Errors.handle_api_error e timestamp request).2 ∈ error_statuses.
Proof.
  intros Hb.
  assert (∀ k, k ∈ base_fields → Errors.dict_lookup (Errors.payload e) k = None)
    as Hfree.
  { intros k Hk. unfold base_fields in Hk.
    repeat (apply elem_of_cons in Hk as [->|Hk]);
      [..|by apply elem_of_nil in Hk];
      destruct Hb; cbn; unfold Errors.given; repeat case_match; done. }
  assert (NoDup (Errors.payload e).*1) as Hnd.
  { destruct Hb; cbn; unfold Errors.given; repeat case_match; cbn;
      apply (bool_decide_unpack _); by vm_compute. }
  assert (∀ k, Errors.dict_lookup (reverse (Errors.payload e)) k
               = Errors.dict_lookup (Errors.payload e) k) as Hrev.
  { intros k. by apply dict_lookup_reverse. }
  unfold Errors.to_dict. rewrite !dict_lookup_update, !Hrev.
  rewrite !Hfree by (apply (bool_decide_unpack _); by vm_compute).
  split_and!; try done.
  - intros k v Hk. by rewrite dict_lookup_update, Hrev, Hk.
  - destruct Hb; apply (bool_decide_unpack _); by vm_compute.
Qed.

Lemma built_errors_keep_base_fields_witness :
  Errors.dict_lookup
    (Errors.to_dict (Errors.NotFoundError "Stock" (Some "NABIL")) "now" None) "message"
  = Some (VStr "Stock not found: NABIL").
Proof.
  destruct (built_errors_keep_base_fields (λ _, "")
              (Errors.NotFoundError "Stock" (Some "NABIL")) "now" None)
    as (_ & H & _).
  - apply Errors.built_not_found.
  - exact H.
Defined.
